(** * LayerCal: formula registry, memory estimator and model aggregation

  A shallow embedding of the calculation code of LayerCal
  ([src/config/layerTypes.js] and the state handling and layer
  distribution of [src/components/LayerCal.jsx]), with the properties
  its specification states about them.

  JavaScript numbers are IEEE 754 doubles.  They are modelled as
  rationals extended with the two infinities and NaN; the sum, product
  and quotient of two numbers are the exact result rounded to the
  nearest double, to the even one on a tie, and to an infinity from
  2^1024 - 2^970 on.  Integers up to 2^53 in magnitude are doubles, and
  the formulas are exact as long as their values stay within that
  range; the properties of the counts are stated for that range.  The
  sign of zero is not modelled. *)

From Stdlib Require Import QArith Qround Qcanon Lqa.
From stdpp Require Import base numbers list strings gmap pretty.

Local Open Scope Z_scope.

(** ** The fragment of ECMAScript the code relies on *)

Module JS.

Inductive number : Type :=
| Fin (q : Qc)
| PosInf
| NegInf
| NaN.

#[global] Instance number_eq_dec : EqDecision number.
Proof. solve_decision. Defined.

(** An integer literal or counter; a double when the integer is one, as
    every integer up to 2^53 in magnitude is. *)
Definition num (z : Z) : number := Fin (Qc_of_Z z).

(** *** Rounding to the nearest double *)

(** [2^e], for every integer [e]. *)
Definition pow2 (e : Z) : Qc :=
  if decide (0 ≤ e) then Qc_of_Z (2 ^ e) else (/ Qc_of_Z (2 ^ (- e)))%Qc.

(** The binary exponent of a positive rational [x]: the [e] with
    [2^e ≤ x < 2^(e+1)]. *)
Definition exponent (x : Qc) : Z :=
  let l := Z.log2 (Qnum x) - Z.log2 (Z.pos (Qden x)) in
  if decide (pow2 l ≤ x)%Qc then l else l - 1.

(** The integer nearest to [q], the even one on a tie. *)
Definition nearest_even (q : Qc) : Z :=
  let f := Qfloor q in
  let r := (q - Qc_of_Z f)%Qc in
  if decide (r < Q2Qc (1 # 2))%Qc then f
  else if decide (Q2Qc (1 # 2) < r)%Qc then f + 1
  else if Z.even f then f else f + 1.

(** The exponent of the last place of the doubles around a positive
    [x]: 52 places below the exponent of [x], and -1074 for the
    subnormal numbers. *)
Definition quantum (x : Qc) : Z := Z.max (exponent x - 52) (-1074).

(** The multiple of [2^quantum x] nearest to a positive [x]. *)
Definition nearest (x : Qc) : Qc :=
  (Qc_of_Z (nearest_even (x / pow2 (quantum x))) * pow2 (quantum x))%Qc.

(** The double nearest to a rational: what an operation returns whose
    exact result is [x]. *)
Definition round (x : Qc) : number :=
  if decide (x = 0%Qc) then Fin 0
  else if decide (0 < x)%Qc
       then (if decide (nearest x < pow2 1024)%Qc then Fin (nearest x) else PosInf)
       else (if decide (nearest (- x) < pow2 1024)%Qc
             then Fin (- nearest (- x)) else NegInf).

(** A number as an operand.  A [Fin q] whose [q] is a double is that
    double; the arithmetic reads any other [q] as the double nearest to
    it, so that its operands are doubles throughout. *)
Definition double (a : number) : number :=
  match a with
  | Fin q => round q
  | _ => a
  end.

(** The finite doubles are the rationals [m * 2^k], with a significand
    [m] below 2^53 in magnitude and [k] from -1074 on ([is_double]), that
    are below 2^1024 in magnitude ([in_range]). *)
Definition is_double (d : Qc) : Prop :=
  ∃ m k, d = (Qc_of_Z m * pow2 k)%Qc ∧ Z.abs m < 2 ^ 53 ∧ -1074 ≤ k.

Definition in_range (d : Qc) : Prop := (- pow2 1024 < d < pow2 1024)%Qc.

(** *** Arithmetic *)

(** The infinity [x * Infinity] (for [pos]) or [x * -Infinity]. *)
Definition scale_inf (pos : bool) (x : Qc) : number :=
  if decide (x = 0%Qc) then NaN
  else if decide (0 < x)%Qc
       then (if pos then PosInf else NegInf)
       else (if pos then NegInf else PosInf).

Definition add (a b : number) : number :=
  match double a, double b with
  | NaN, _ | _, NaN => NaN
  | Fin x, Fin y => round (x + y)
  | PosInf, NegInf | NegInf, PosInf => NaN
  | PosInf, _ | _, PosInf => PosInf
  | NegInf, _ | _, NegInf => NegInf
  end.

Definition mul (a b : number) : number :=
  match double a, double b with
  | NaN, _ | _, NaN => NaN
  | Fin x, Fin y => round (x * y)
  | Fin x, PosInf | PosInf, Fin x => scale_inf true x
  | Fin x, NegInf | NegInf, Fin x => scale_inf false x
  | PosInf, PosInf | NegInf, NegInf => PosInf
  | PosInf, NegInf | NegInf, PosInf => NegInf
  end.

Definition div (a b : number) : number :=
  match double a, double b with
  | NaN, _ | _, NaN => NaN
  | Fin x, Fin y => if decide (y = 0%Qc) then scale_inf true x else round (x / y)
  | Fin _, _ => Fin 0
  | PosInf, Fin y => if decide (y < 0)%Qc then NegInf else PosInf
  | NegInf, Fin y => if decide (y < 0)%Qc then PosInf else NegInf
  | _, _ => NaN
  end.

(** [a < b]; every comparison with NaN is false. *)
Definition lt (a b : number) : bool :=
  match a, b with
  | NaN, _ | _, NaN => false
  | Fin x, Fin y => bool_decide (x < y)%Qc
  | NegInf, NegInf | PosInf, _ => false
  | NegInf, _ => true
  | Fin _, PosInf => true
  | Fin _, NegInf => false
  end.

(** [a > b] *)
Definition gt (a b : number) : bool := lt b a.

(** [a === b] on numbers: NaN differs from everything, itself included. *)
Definition strict_eq (a b : number) : bool :=
  match a, b with
  | NaN, _ | _, NaN => false
  | _, _ => bool_decide (a = b)
  end.

Definition Math_floor (a : number) : number :=
  match a with
  | Fin q => num (Qfloor q)
  | _ => a
  end.

Definition Math_max (a b : number) : number :=
  match a, b with
  | NaN, _ | _, NaN => NaN
  | PosInf, _ | _, PosInf => PosInf
  | NegInf, c | c, NegInf => c
  | Fin x, Fin y => if decide (x < y)%Qc then Fin y else Fin x
  end.

(** The values a layer configuration holds: numbers (select and number
    inputs) and booleans (checkboxes). *)
Inductive value : Type :=
| VNum (n : number)
| VBool (b : bool).

#[global] Instance value_eq_dec : EqDecision value.
Proof. solve_decision. Defined.

(** A property read yields [option value]; [None] is [undefined]. *)

(** ToNumber, applied by [*], and by [+] when no operand is a string or
    an object. *)
Definition ToNumber (v : option value) : number :=
  match v with
  | Some (VNum n) => n
  | Some (VBool b) => if b then num 1 else num 0
  | None => NaN
  end.

(** ToBoolean, as used by [?:]. *)
Definition ToBoolean (v : option value) : bool :=
  match v with
  | Some (VNum (Fin q)) => bool_decide (q ≠ 0%Qc)
  | Some (VNum NaN) => false
  | Some (VNum _) => true
  | Some (VBool b) => b
  | None => false
  end.

(** The members every object literal inherits from [Object.prototype];
    all of them are functions, except [__proto__], which reads as the
    prototype object itself. *)
Definition Object_prototype : list string :=
  [ "constructor"; "__defineGetter__"; "__defineSetter__";
    "hasOwnProperty"; "__lookupGetter__"; "__lookupSetter__";
    "isPrototypeOf"; "propertyIsEnumerable"; "toString"; "valueOf";
    "__proto__"; "toLocaleString" ]%string.

(** The outcome of [table[key]] on an object literal whose own
    properties are the numbers of [table]. *)
Inductive property : Type :=
| Own (n : number)
| Inherited (name : string)
| Undefined.

Definition get (table : gmap string number) (key : string) : property :=
  match table !! key with
  | Some n => Own n
  | None => if bool_decide (key ∈ Object_prototype) then Inherited key else Undefined
  end.

(** [p || d]: [p] when it is truthy (objects and functions are), [d]
    otherwise. *)
Definition or_else (p : property) (d : number) : property :=
  match p with
  | Own n => if ToBoolean (Some (VNum n)) then p else Own d
  | Inherited _ => p
  | Undefined => Own d
  end.

(** ToNumber of a property; an object or function converts through its
    string form, which is no numeric literal. *)
Definition property_number (p : property) : number :=
  match p with
  | Own n => n
  | Inherited _ | Undefined => NaN
  end.

(** [x.toFixed(1)]: the sign, then the integer [n] nearest to ten times
    the magnitude (the larger one on a tie) printed with a point before
    its last digit.  From 1e21 on, ECMAScript prints the number in
    exponent notation instead; that is left out here. *)
Definition toFixed1 (x : number) : string :=
  match x with
  | NaN => "NaN"
  | PosInf => "Infinity"
  | NegInf => "-Infinity"
  | Fin q =>
      let s := if decide (q < 0)%Qc then "-" else "" in
      let x := if decide (q < 0)%Qc then (- q)%Qc else q in
      let n := Z.to_N (Qfloor (x * Qc_of_Z 10 + Q2Qc (1 # 2))%Qc) in
      (s +:+ pretty (n / 10)%N +:+ "." +:+ pretty (n mod 10)%N)%string
  end.

(** A string argument with a default value; [None] is an omitted
    argument. *)
Definition default_string (arg : option string) (d : string) : string :=
  match arg with
  | Some s => s
  | None => d
  end.

(** The number of times the body of
    [for (let layer = 0; layer < bound; layer++)] runs; [None] when the
    loop never ends.  The counter is a double: it stops growing at 2^53,
    where [layer++] leaves it as it is, so a bound above 2^53 is never
    reached. *)
Definition loop_count (bound : number) : option nat :=
  match bound with
  | Fin q =>
      if decide (q ≤ Qc_of_Z (2 ^ 53))%Qc then Some (Z.to_nat (Qceiling q)) else None
  | PosInf => None
  | NegInf | NaN => Some O
  end.

(** [n] rounds of a loop body that updates [total], the counter starting
    at [layer]. *)
Fixpoint for_loop (n : nat) (layer : Z) (body : Z → number → number)
    (total : number) : number :=
  match n with
  | O => total
  | S n' => for_loop n' (layer + 1) body (body layer total)
  end.

End JS.

Export JS.

#[global] Arguments num : simpl never.
#[global] Arguments round : simpl never.
#[global] Arguments add : simpl never.
#[global] Arguments mul : simpl never.
#[global] Arguments div : simpl never.

Declare Scope js_scope.
Delimit Scope js_scope with js.
Bind Scope js_scope with number.
Infix "+" := add : js_scope.
Infix "*" := mul : js_scope.
Infix "/" := div : js_scope.

(** ** The layer registry ([getLayerTypes], [src/config/layerTypes.js]) *)

Module Registry.

(** A layer configuration ([params]) is an object, read by field name.
    None of the field names is a member of [Object.prototype], so a read
    is a lookup among the object's own properties. *)
Abbreviation Params := (gmap string value).

(** [params.key] in a numeric position. *)
Definition field (params : Params) (key : string) : number :=
  ToNumber (params !! key).

(** [params.key] as the condition of [?:]. *)
Definition flag (params : Params) (key : string) : bool :=
  ToBoolean (params !! key).

(** An argument with a default value; [None] is an omitted argument. *)
Definition default (arg : option number) (d : Z) : number :=
  match arg with
  | Some n => n
  | None => num d
  end.

(** [const direction = params.bidirectional ? 2 : 1] *)
Definition direction (params : Params) : number :=
  if flag params "bidirectional" then num 2 else num 1.

(** [layer === 0 ? params.input_size : params.hidden_size * direction] *)
Definition input_dim (params : Params) (layer : Z) : number :=
  if bool_decide (layer = 0) then field params "input_size"
  else (field params "hidden_size" * direction params)%js.

(** The parameter loop of the recurrent layers, with [gates] gates. *)
Definition recurrent_calculate (gates : Z) (params : Params) : option number :=
  n ← loop_count (field params "num_layers");
  Some (for_loop n 0
    (λ layer total,
       let params_per_direction :=
         (num gates * (input_dim params layer * field params "hidden_size"
                       + field params "hidden_size" * field params "hidden_size"
                       + field params "hidden_size" * num 2))%js in
       (total + params_per_direction * direction params)%js)
    (num 0)).

(** The FLOPs loop of the recurrent layers. *)
Definition recurrent_calculateFLOPs (gates : Z) (params : Params)
    (seqLen : option number) : option number :=
  let seqLen := default seqLen 128 in
  n ← loop_count (field params "num_layers");
  Some (for_loop n 0
    (λ layer total,
       let flops_per_step :=
         (num gates * num 2
          * (input_dim params layer * field params "hidden_size"
             + field params "hidden_size" * field params "hidden_size"))%js in
       (total + flops_per_step * seqLen * direction params)%js)
    (num 0)).

Module embedding.
Definition calculate (params : Params) : number :=
  (field params "vocab_size" * field params "embedding_dim")%js.
Definition calculateFLOPs : number := num 0.
End embedding.

Module linear.
Definition calculate (params : Params) : number :=
  (field params "input_dim" * field params "output_dim"
   + (if flag params "use_bias" then field params "output_dim" else num 0))%js.
Definition calculateFLOPs (params : Params) : number :=
  (num 2 * field params "input_dim" * field params "output_dim")%js.
End linear.

Module conv2d.
Definition calculate (params : Params) : number :=
  (field params "in_channels" * field params "out_channels"
   * field params "kernel_size" * field params "kernel_size"
   + (if flag params "use_bias" then field params "out_channels" else num 0))%js.
Definition calculateFLOPs (params : Params) (inputSize : option number) : number :=
  let inputSize := default inputSize 224 in
  let outputSize := inputSize in
  (num 2 * field params "in_channels" * field params "out_channels"
   * field params "kernel_size" * field params "kernel_size"
   * outputSize * outputSize)%js.
End conv2d.

Module lstm.
Definition calculate : Params → option number := recurrent_calculate 4.
Definition calculateFLOPs : Params → option number → option number :=
  recurrent_calculateFLOPs 4.
End lstm.

Module transformer.
Definition calculate (params : Params) : number :=
  let d_model := field params "d_model" in
  let d_ff := field params "d_ff" in
  let mha := (num 4 * (d_model * d_model + d_model))%js in
  let ffn := (d_model * d_ff + d_ff + d_ff * d_model + d_model)%js in
  let ln := (num 2 * (d_model * num 2))%js in
  (mha + ffn + ln)%js.
Definition calculateFLOPs (params : Params) (seqLen : option number) : number :=
  let seqLen := default seqLen 512 in
  let d_model := field params "d_model" in
  let d_ff := field params "d_ff" in
  let qkvProj := (num 3 * num 2 * seqLen * d_model * d_model)%js in
  let attnScores := (num 2 * seqLen * seqLen * d_model)%js in
  let attnOutput := (num 2 * seqLen * d_model * d_model)%js in
  let ffn := (seqLen * (num 2 * d_model * d_ff + num 2 * d_ff * d_model))%js in
  (qkvProj + attnScores + attnOutput + ffn)%js.
End transformer.

Module batchnorm.
Definition calculate (params : Params) : number :=
  (field params "num_features" * num 2)%js.
Definition calculateFLOPs (params : Params)
    (batchSize spatialSize : option number) : number :=
  let batchSize := default batchSize 32 in
  let spatialSize := default spatialSize 1 in
  (field params "num_features" * batchSize * spatialSize * num 4)%js.
End batchnorm.

Module dropout.
Definition calculate : number := num 0.
Definition calculateFLOPs : number := num 0.
End dropout.

(** [maxpool2d] and [avgpool2d] have the same two functions. *)
Module pool2d.
Definition calculate : number := num 0.
Definition calculateFLOPs (params : Params)
    (channels inputSize : option number) : number :=
  let channels := default channels 64 in
  let inputSize := default inputSize 224 in
  let outputSize := Math_floor (inputSize / field params "kernel_size") in
  (channels * outputSize * outputSize
   * field params "kernel_size" * field params "kernel_size")%js.
End pool2d.

Module layernorm.
Definition calculate (params : Params) : number :=
  (field params "normalized_shape" * num 2)%js.
Definition calculateFLOPs (params : Params)
    (batchSize seqLen : option number) : number :=
  let batchSize := default batchSize 32 in
  let seqLen := default seqLen 512 in
  (field params "normalized_shape" * batchSize * seqLen * num 5)%js.
End layernorm.

Module gru.
Definition calculate : Params → option number := recurrent_calculate 3.
Definition calculateFLOPs : Params → option number → option number :=
  recurrent_calculateFLOPs 3.
End gru.

Module attention.
Definition calculate (params : Params) : number :=
  let d_model := field params "d_model" in
  (num 4 * (d_model * d_model + d_model))%js.
Definition calculateFLOPs (params : Params) (seqLen : option number) : number :=
  let seqLen := default seqLen 512 in
  let d_model := field params "d_model" in
  let qkvProj := (num 3 * num 2 * seqLen * d_model * d_model)%js in
  let attnScores := (num 2 * seqLen * seqLen * d_model)%js in
  let attnOutput := (num 2 * seqLen * d_model * d_model)%js in
  (qkvProj + attnScores + attnOutput)%js.
End attention.

Module relu.
Definition calculate : number := num 0.
Definition calculateFLOPs : number := num 0.
End relu.

Module softmax.
Definition calculate : number := num 0.
Definition calculateFLOPs : number := num 0.
End softmax.

(** The keys of the registry object. *)
Inductive LayerType : Type :=
| Embedding | Linear | Conv2d | Lstm | Transformer | Batchnorm | Dropout
| Maxpool2d | Avgpool2d | Layernorm | Gru | Attention | Relu | Softmax.

#[global] Instance LayerType_eq_dec : EqDecision LayerType.
Proof. solve_decision. Defined.

(** [LAYER_TYPES[type].calculate(params)]; [None] when the call does not
    return. *)
Definition calculate (type : LayerType) (params : Params) : option number :=
  match type with
  | Embedding => Some (embedding.calculate params)
  | Linear => Some (linear.calculate params)
  | Conv2d => Some (conv2d.calculate params)
  | Lstm => lstm.calculate params
  | Transformer => Some (transformer.calculate params)
  | Batchnorm => Some (batchnorm.calculate params)
  | Dropout => Some dropout.calculate
  | Maxpool2d | Avgpool2d => Some pool2d.calculate
  | Layernorm => Some (layernorm.calculate params)
  | Gru => gru.calculate params
  | Attention => Some (attention.calculate params)
  | Relu => Some relu.calculate
  | Softmax => Some softmax.calculate
  end.

(** [LAYER_TYPES[type].calculateFLOPs(params)], every shape argument
    omitted. *)
Definition calculateFLOPs (type : LayerType) (params : Params) : option number :=
  match type with
  | Embedding => Some embedding.calculateFLOPs
  | Linear => Some (linear.calculateFLOPs params)
  | Conv2d => Some (conv2d.calculateFLOPs params None)
  | Lstm => lstm.calculateFLOPs params None
  | Transformer => Some (transformer.calculateFLOPs params None)
  | Batchnorm => Some (batchnorm.calculateFLOPs params None None)
  | Dropout => Some dropout.calculateFLOPs
  | Maxpool2d | Avgpool2d => Some (pool2d.calculateFLOPs params None None)
  | Layernorm => Some (layernorm.calculateFLOPs params None None)
  | Gru => gru.calculateFLOPs params None
  | Attention => Some (attention.calculateFLOPs params None)
  | Relu => Some relu.calculateFLOPs
  | Softmax => Some softmax.calculateFLOPs
  end.

(** [calculateMemory(totalParams, mode = 'inference', precision = 'fp32')] *)
Definition bytesPerParam : gmap string number :=
  {[ "fp32" := num 4; "fp16" := num 2; "bf16" := num 2; "int8" := num 1 ]}.

(** [const bytes = bytesPerParam[precision] || 4] *)
Definition bytes (precision : string) : property :=
  or_else (get bytesPerParam precision) (num 4).

Definition calculateMemory (totalParams : number) (mode precision : option string)
    : number :=
  let mode := default_string mode "inference" in
  let precision := default_string precision "fp32" in
  if bool_decide (mode = "inference"%string) then
    (totalParams * property_number (bytes precision))%js
  else
    (totalParams * property_number (bytes precision) * num 4)%js.

End Registry.

(** ** The component state ([src/components/LayerCal.jsx]) *)

Module LayerCal.
Import Registry.

(** An entry of [modelLayers]. *)
Record Layer : Type := mkLayer {
  id : number;
  type : LayerType;
  params : gmap string value
}.

#[global] Instance Layer_eq_dec : EqDecision Layer.
Proof. solve_decision. Defined.

(** [typeof value === 'number'] *)
Definition is_number (v : value) : bool :=
  match v with
  | VNum _ => true
  | VBool _ => false
  end.

(** [validatedValue] of [updateLayerParam]: the minimum of 1 and integers
    only, for the parameters that are no rate. *)
Definition validatedValue (paramKey : string) (v : value) : value :=
  if is_number v && bool_decide (paramKey ≠ "rate"%string)
  then VNum (Math_max (num 1) (Math_floor (ToNumber (Some v))))
  else v.

(** The state update of [updateLayerParam(id, paramKey, value)]. *)
Definition updateLayerParam (id0 : number) (paramKey : string) (v : value)
    (prev : list Layer) : list Layer :=
  (λ layer,
     if negb (strict_eq (id layer) id0) then layer
     else mkLayer (id layer) (type layer)
                  (<[paramKey := validatedValue paramKey v]> (params layer)))
  <$> prev.

(** The reducer [(total, layer) => total + f(layer)]; [None] when [f]
    does not return. *)
Definition reducer (f : Layer → option number) (total : option number)
    (layer : Layer) : option number :=
  t ← total;
  c ← f layer;
  Some (t + c)%js.

(** [config.calculate(layer.params)] for [config = LAYER_TYPES[layer.type]] *)
Definition layerParams (layer : Layer) : option number :=
  calculate (type layer) (params layer).

(** [totalParams]: the reduction of [modelLayers] from 0. *)
Definition totalParams (modelLayers : list Layer) : option number :=
  foldl (reducer layerParams) (Some (num 0)) modelLayers.

(** [totalFLOPs]; every entry of the registry has a [calculateFLOPs]. *)
Definition totalFLOPs (modelLayers : list Layer) : option number :=
  foldl (reducer (λ layer, calculateFLOPs (type layer) (params layer)))
        (Some (num 0)) modelLayers.

(** [memoryEstimate] for the selected mode and precision. *)
Definition memoryEstimate (modelLayers : list Layer) (memoryMode precision : string)
    : option number :=
  t ← totalParams modelLayers;
  Some (calculateMemory t (Some memoryMode) (Some precision)).

(** A row of the layer distribution: its React key, the number shown
    after the layer label, and the percentage text. *)
Record Row : Type := mkRow {
  key : number;
  label : Z;
  percentage : string
}.

(** The percentage text of a layer with [p] parameters. *)
Definition percentageOf (total p : number) : string :=
  if gt total (num 0) then toFixed1 (p / total * num 100)%js
  else "0.0".

(** The rows of [modelLayers.map((layer, idx) => ...)] in the layer
    distribution, which is shown when the model has a layer. *)
Definition layerDistribution (modelLayers : list Layer) : option (list Row) :=
  total ← totalParams modelLayers;
  mapM (λ '(idx, layer),
          p ← layerParams layer;
          Some (mkRow (id layer) (Z.of_nat idx + 1) (percentageOf total p)))
       (imap pair modelLayers).

End LayerCal.

(** ** The grouping pass of the code generator

    [src/utils/codeGenerator.js] is not among the sources at hand. *)

Module Grouping.
Import Registry LayerCal.

(** Modelled from the spec: the Group record of the data model, which
    [src/utils/codeGenerator.js] builds (kind tag, shared configuration,
    member count, identities of the members). *)
Record Group : Type := mkGroup {
  kind : LayerType;
  config : gmap string value;
  count : nat;
  members : list number
}.

(** Modelled from the spec: the group a layer opens, of which it is the
    first member; [src/utils/codeGenerator.js] is missing. *)
Definition open_group (layer : Layer) : Group :=
  mkGroup (type layer) (params layer) 1 [id layer].

(** Modelled from the spec: whether a layer continues a group, that is,
    has the kind tag of the group's first member and a configuration
    deeply equal to it; [src/utils/codeGenerator.js] is missing. *)
Definition continues (g : Group) (layer : Layer) : bool :=
  bool_decide (type layer = kind g) && bool_decide (params layer = config g).

(** Modelled from the spec: a group accumulating one more member;
    [src/utils/codeGenerator.js] is missing. *)
Definition extend (g : Group) (layer : Layer) : Group :=
  mkGroup (kind g) (config g) (S (count g)) (members g ++ [id layer]).

(** Modelled from the spec: the left-to-right scan of the Grouping Pass of
    [src/utils/codeGenerator.js].  The current group accumulates the
    consecutive layers that continue it; a mismatch, or the end of the
    sequence, closes and emits it. *)
Fixpoint scan (current : Group) (layers : list Layer) : list Group :=
  match layers with
  | [] => [current]
  | layer :: rest =>
      if continues current layer then scan (extend current layer) rest
      else current :: scan (open_group layer) rest
  end.

(** Modelled from the spec: the Grouping Pass, [group] of the spec. *)
Definition group (layers : list Layer) : list Group :=
  match layers with
  | [] => []
  | layer :: rest => scan (open_group layer) rest
  end.

(** A group stands for a run of layers when the run is not empty, the
    group counts and lists its members in order, and every member has the
    group's kind tag and configuration. *)
Definition stands_for (g : Group) (run : list Layer) : Prop :=
  run ≠ [] ∧
  count g = length run ∧
  members g = id <$> run ∧
  Forall (λ layer, type layer = kind g ∧ params layer = config g) run.

End Grouping.

(** ** The descriptors of the registry: default configurations and fields *)

Module Descriptors.
Import Registry.

(** The [type] of a field: a select box, a number input or a checkbox. *)
Inductive FieldType : Type := Select | NumberInput | Checkbox.

(** An entry of [fields]: its key, its type and the options of a select
    box (labels, and the step and range of the rate input, are for
    display). *)
Record Field : Type := mkField {
  key : string;
  type : FieldType;
  options : list Z
}.

(** The rate 0.1 of the Dropout layer and of the Transformer default. *)
Definition one_tenth : value := VNum (Fin (Q2Qc (1 # 10))).

(** [LAYER_TYPES[type].defaultParams] *)
Definition defaultParams (t : LayerType) : gmap string value :=
  match t with
  | Embedding =>
      {[ "vocab_size" := VNum (num 10000); "embedding_dim" := VNum (num 128) ]}
  | Linear =>
      {[ "input_dim" := VNum (num 512); "output_dim" := VNum (num 256);
         "use_bias" := VBool true ]}
  | Conv2d =>
      {[ "in_channels" := VNum (num 3); "out_channels" := VNum (num 64);
         "kernel_size" := VNum (num 3); "use_bias" := VBool true ]}
  | Lstm | Gru =>
      {[ "input_size" := VNum (num 128); "hidden_size" := VNum (num 256);
         "num_layers" := VNum (num 1); "bidirectional" := VBool false ]}
  | Transformer =>
      {[ "d_model" := VNum (num 512); "num_heads" := VNum (num 8);
         "d_ff" := VNum (num 2048); "dropout" := one_tenth ]}
  | Batchnorm => {[ "num_features" := VNum (num 128) ]}
  | Dropout => {[ "rate" := one_tenth ]}
  | Maxpool2d | Avgpool2d => {[ "kernel_size" := VNum (num 2) ]}
  | Layernorm => {[ "normalized_shape" := VNum (num 512) ]}
  | Attention => {[ "d_model" := VNum (num 512); "num_heads" := VNum (num 8) ]}
  | Relu | Softmax => ∅
  end.

(** [LAYER_TYPES[type].fields] *)
Definition fields (t : LayerType) : list Field :=
  match t with
  | Embedding =>
      [ mkField "vocab_size" NumberInput [5000; 10000; 30000; 50000];
        mkField "embedding_dim" Select [64; 128; 256; 512; 768; 1024] ]
  | Linear =>
      [ mkField "input_dim" Select [64; 128; 256; 512; 768; 1024; 2048];
        mkField "output_dim" Select [64; 128; 256; 512; 768; 1024; 2048];
        mkField "use_bias" Checkbox [] ]
  | Conv2d =>
      [ mkField "in_channels" Select [1; 3; 16; 32; 64; 128; 256];
        mkField "out_channels" Select [16; 32; 64; 128; 256; 512];
        mkField "kernel_size" Select [1; 3; 5; 7];
        mkField "use_bias" Checkbox [] ]
  | Lstm | Gru =>
      [ mkField "input_size" Select [64; 128; 256; 512; 768];
        mkField "hidden_size" Select [128; 256; 512; 768; 1024];
        mkField "num_layers" Select [1; 2; 3; 4];
        mkField "bidirectional" Checkbox [] ]
  | Transformer =>
      [ mkField "d_model" Select [256; 512; 768; 1024];
        mkField "num_heads" Select [4; 8; 12; 16];
        mkField "d_ff" Select [1024; 2048; 3072; 4096] ]
  | Batchnorm => [ mkField "num_features" Select [64; 128; 256; 512; 768; 1024] ]
  | Dropout => [ mkField "rate" NumberInput [] ]
  | Maxpool2d | Avgpool2d => [ mkField "kernel_size" Select [2; 3; 4] ]
  | Layernorm => [ mkField "normalized_shape" Select [128; 256; 512; 768; 1024] ]
  | Attention =>
      [ mkField "d_model" Select [256; 512; 768; 1024];
        mkField "num_heads" Select [4; 8; 12; 16] ]
  | Relu | Softmax => []
  end.

(** What the field of a configuration holds when it is in order: a
    checkbox a boolean, the rate a number, every other field an integer
    from 1 on. *)
Definition field_in_order (params : gmap string value) (f : Field) : Prop :=
  match type f with
  | Checkbox => ∃ b : bool, params !! key f = Some (VBool b)
  | Select | NumberInput =>
      if bool_decide (key f = "rate"%string)
      then ∃ n : number, params !! key f = Some (VNum n)
      else ∃ z : Z, 1 ≤ z ∧ params !! key f = Some (VNum (num z))
  end.

(** A configuration is in order for a layer type when all fields of the
    type are. *)
Definition in_order (t : LayerType) (params : gmap string value) : Prop :=
  Forall (field_in_order params) (fields t).

(** The largest number a field is taken to hold: the largest option of
    a select box; what is typed into a number input is not limited by the
    page, and taken to be at most 2^32 here. *)
Definition limit (f : Field) : Z :=
  match type f with
  | Select => foldr Z.max 0 (options f)
  | NumberInput => 2 ^ 32
  | Checkbox => 1
  end.

(** A field in order that holds at most its limit. *)
Definition field_bounded (params : gmap string value) (f : Field) : Prop :=
  match type f with
  | Checkbox => ∃ b : bool, params !! key f = Some (VBool b)
  | Select | NumberInput =>
      if bool_decide (key f = "rate"%string)
      then ∃ n : number, params !! key f = Some (VNum n)
      else ∃ z : Z, 1 ≤ z ≤ limit f ∧ params !! key f = Some (VNum (num z))
  end.

(** A configuration in order all of whose fields are within their
    limits. *)
Definition bounded (t : LayerType) (params : gmap string value) : Prop :=
  Forall (field_bounded params) (fields t).

(** What the [onChange] of a field passes to [updateLayerParam]:
    [e.target.checked] for a checkbox, [Number(e.target.value)] for the
    others; [is_input f v] says that [v] is such a value, and finite. *)
Definition is_input (f : Field) (v : value) : Prop :=
  match type f with
  | Checkbox => ∃ b : bool, v = VBool b
  | Select | NumberInput => ∃ q : Qc, v = VNum (Fin q)
  end.

End Descriptors.

(** ** The other state updates of the component *)

Module Editing.
Import Registry LayerCal.

(** The state update of [addLayer(type)]; [newId] is the
    [Date.now() + Math.random()] of the call. *)
Definition addLayer (newId : number) (t : LayerType) (prev : list Layer)
    : list Layer :=
  prev ++ [mkLayer newId t (Descriptors.defaultParams t)].

(** The state update of [deleteLayer(id)]. *)
Definition deleteLayer (id0 : number) (prev : list Layer) : list Layer :=
  filter (λ layer, strict_eq (id layer) id0 = false) prev.

(** [newLayers.splice(index, 0, draggedLayer)]; an index beyond the end
    inserts at the end. *)
Definition splice_in (index : nat) (draggedLayer : Layer) (newLayers : list Layer)
    : list Layer :=
  take index newLayers ++ draggedLayer :: drop index newLayers.

(** The state update of [handleLayerDragOver]: the layer at
    [draggedIndex] is taken out and put in at [index].  [None] when
    [draggedIndex] is no index of the model: the code then puts in
    [undefined], and the result is no list of layers. *)
Definition moveLayer (draggedIndex index : nat) (prev : list Layer)
    : option (list Layer) :=
  draggedLayer ← prev !! draggedIndex;
  Some (splice_in index draggedLayer (delete draggedIndex prev)).

(** [handleLayerDragOver(e, index)] on the pair of [draggedIndex]
    ([None] is [null]) and [modelLayers]: nothing happens without a
    dragged layer or over the dragged layer itself; otherwise the layer
    moves and [draggedIndex] follows it. *)
Definition handleLayerDragOver (index : nat)
    (state : option nat * list Layer) : option (option nat * list Layer) :=
  match state.1 with
  | None => Some state
  | Some draggedIndex =>
      if bool_decide (draggedIndex = index) then Some state
      else newLayers ← moveLayer draggedIndex index state.2;
           Some (Some index, newLayers)
  end.

(** [modelSizeMB = (totalParams * 4) / (1024 * 1024)] *)
Definition modelSizeMB (modelLayers : list Layer) : option number :=
  t ← totalParams modelLayers;
  Some (t * num 4 / (num 1024 * num 1024))%js.

End Editing.

(** ** The settings kept in [localStorage]

    [src/utils/localStorage.js] and the initial states and handlers of
    the component that use it. *)

Module Storage.

(** The browser's [localStorage]: its items, or [Blocked] when every
    access throws (private mode, blocked cookies). *)
Inductive localStorage : Type :=
| Blocked
| Items (items : gmap string string).

Section Quota.

(** Whether the browser accepts the items: [localStorage.setItem] throws
    when the quota is exceeded. *)
Variable fits : gmap string string → bool.

(** [localStorage.getItem(key)]: [None] when it throws, [Some None] for
    [null]. *)
Definition native_getItem (key : string) (ls : localStorage)
    : option (option string) :=
  match ls with
  | Blocked => None
  | Items items => Some (items !! key)
  end.

(** [localStorage.setItem(key, value)]: [None] when it throws. *)
Definition native_setItem (key value : string) (ls : localStorage)
    : option localStorage :=
  match ls with
  | Blocked => None
  | Items items =>
      if fits (<[key := value]> items) then Some (Items (<[key := value]> items))
      else None
  end.

(** [localStorage.removeItem(key)]: [None] when it throws. *)
Definition native_removeItem (key : string) (ls : localStorage)
    : option localStorage :=
  match ls with
  | Blocked => None
  | Items items => Some (Items (delete key items))
  end.

(** [safeLocalStorage.getItem(key, defaultValue = null)]; a [None]
    default or result is [null]. *)
Definition getItem (key : string) (defaultValue : option string)
    (ls : localStorage) : option string :=
  match native_getItem key ls with
  | Some (Some item) => Some item
  | Some None => defaultValue
  | None => defaultValue
  end.

(** [safeLocalStorage.setItem(key, value)]: whether it succeeded, and the
    storage after it. *)
Definition setItem (key value : string) (ls : localStorage)
    : bool * localStorage :=
  match native_setItem key value ls with
  | Some ls' => (true, ls')
  | None => (false, ls)
  end.

(** [safeLocalStorage.removeItem(key)] *)
Definition removeItem (key : string) (ls : localStorage) : bool * localStorage :=
  match native_removeItem key ls with
  | Some ls' => (true, ls')
  | None => (false, ls)
  end.

(** [safeLocalStorage.isAvailable()]: a test item is set and removed. *)
Definition isAvailable (ls : localStorage) : bool * localStorage :=
  let testKey := "__localStorage_test__"%string in
  match native_setItem testKey "test" ls with
  | Some ls1 =>
      match native_removeItem testKey ls1 with
      | Some ls2 => (true, ls2)
      | None => (false, ls1)
      end
  | None => (false, ls)
  end.

(** [String(b)] *)
Definition String_of_bool (b : bool) : string := if b then "true" else "false".

(** The initial [isDarkMode]: the saved setting, or the system's
    preference ([detectSystemDarkMode()], here [system]). *)
Definition initialDarkMode (system : bool) (ls : localStorage) : bool :=
  match getItem "layercal-darkmode" None ls with
  | Some saved => bool_decide (saved = "true"%string)
  | None => system
  end.

(** [handleDarkModeToggle]: the new mode and the storage after it. *)
Definition handleDarkModeToggle (prev : bool) (ls : localStorage)
    : bool * localStorage :=
  let newMode := negb prev in
  (newMode, (setItem "layercal-darkmode" (String_of_bool newMode) ls).2).

(** The initial [language]. *)
Definition initialLanguage (ls : localStorage) : option string :=
  getItem "layercal-language" (Some "en"%string) ls.

(** [handleLanguageChange(newLang)]: the new language and the storage
    after it. *)
Definition handleLanguageChange (newLang : string) (ls : localStorage)
    : string * localStorage :=
  (newLang, (setItem "layercal-language" newLang ls).2).

End Quota.

End Storage.

(** ** The display of numbers and byte counts *)

Module Format.

Section Digits.

(** The digits [Number::toString] prints for a finite number that is no
    integer, or is an integer from 2^53 on in magnitude (the shortest
    digits that read back as the same double, in exponent notation when
    large); they are no matter of the code at hand. *)
Variable other_digits : Qc → string.

(** Whether a rational is an integer below 2^53 in magnitude, which
    [Number::toString] prints digit by digit. *)
Definition plain_integer (q : Qc) : bool :=
  bool_decide (Qc_of_Z (Qfloor q) = q) && bool_decide (Z.abs (Qfloor q) < 2 ^ 53).

(** [num.toString()], also the string of a number that [+] appends to. *)
Definition ToString (x : number) : string :=
  match x with
  | NaN => "NaN"
  | PosInf => "Infinity"
  | NegInf => "-Infinity"
  | Fin q => if plain_integer q then pretty (Qfloor q) else other_digits q
  end.

(** [x.toFixed(2)]: the sign, then the integer [n] nearest to a hundred
    times the magnitude (the larger one on a tie) printed with a point
    before its last two digits; from 1e21 on, the string of the
    magnitude. *)
Definition toFixed2 (x : number) : string :=
  match x with
  | NaN => "NaN"
  | PosInf => "Infinity"
  | NegInf => "-Infinity"
  | Fin q =>
      let s := if decide (q < 0)%Qc then "-" else "" in
      let x := if decide (q < 0)%Qc then (- q)%Qc else q in
      if decide (Qc_of_Z (10 ^ 21) ≤ x)%Qc then (s +:+ ToString (Fin x))%string
      else
        let n := Z.to_N (Qfloor (x * Qc_of_Z 100 + Q2Qc (1 # 2))%Qc) in
        (s +:+ pretty (n / 100)%N +:+ "."
           +:+ pretty (n / 10 mod 10)%N +:+ pretty (n mod 10)%N)%string
  end.

(** [a >= b]; false when either is NaN. *)
Definition ge (a b : number) : bool :=
  match a, b with
  | NaN, _ | _, NaN => false
  | _, _ => negb (lt a b)
  end.

(** [formatNumber(num)] *)
Definition formatNumber (n : number) : string :=
  if ge n (num (10 ^ 12)) then (toFixed2 (n / num (10 ^ 12))%js +:+ "T")%string
  else if ge n (num (10 ^ 9)) then (toFixed2 (n / num (10 ^ 9))%js +:+ "G")%string
  else if ge n (num (10 ^ 6)) then (toFixed2 (n / num (10 ^ 6))%js +:+ "M")%string
  else if ge n (num (10 ^ 3)) then (toFixed2 (n / num (10 ^ 3))%js +:+ "K")%string
  else ToString n.

(** [formatBytes(bytes)] *)
Definition formatBytes (bytes : number) : string :=
  if ge bytes (num (10 ^ 9)) then (toFixed2 (bytes / num (10 ^ 9))%js +:+ " GB")%string
  else if ge bytes (num (10 ^ 6)) then (toFixed2 (bytes / num (10 ^ 6))%js +:+ " MB")%string
  else if ge bytes (num (10 ^ 3)) then (toFixed2 (bytes / num (10 ^ 3))%js +:+ " KB")%string
  else (ToString bytes +:+ " B")%string.

End Digits.

(** The text of [m] hundredths: the integer part, a point, two digits. *)
Definition hundredths (m : Z) : string :=
  (pretty (Z.to_N m / 100)%N +:+ "."
     +:+ pretty (Z.to_N m / 10 mod 10)%N +:+ pretty (Z.to_N m mod 10)%N)%string.

(** The integer nearest to [100 * n / unit], the larger one on a tie. *)
Definition nearest_hundredth (n unit : Z) : Z := (200 * n + unit) / (2 * unit).

End Format.

(** ** Sums of finite counts *)

Module Sums.
Import LayerCal.

(** Whether a call returned a count: an integer that is not negative. *)
Definition is_count (o : option number) : bool :=
  match o with
  | Some (Fin p) => bool_decide (Qc_of_Z (Qfloor p) = p) && bool_decide (0 ≤ Qfloor p)
  | _ => false
  end.

(** The count a call returned, 0 when it returned none. *)
Definition count_of (o : option number) : Z :=
  match o with
  | Some (Fin p) => Qfloor p
  | _ => 0
  end.

(** Whether [f] returns a count on every layer. *)
Definition all_counts (f : Layer → option number) (modelLayers : list Layer) : bool :=
  forallb (λ layer, is_count (f layer)) modelLayers.

(** The sum of the counts that [f] returns on the layers. *)
Definition sum_of (f : Layer → option number) (modelLayers : list Layer) : Z :=
  foldr (λ layer rest, count_of (f layer) + rest) 0 modelLayers.

(** [config.calculateFLOPs(layer.params)] *)
Definition layerFLOPs (layer : Layer) : option number :=
  Registry.calculateFLOPs (type layer) (params layer).

End Sums.

(** ** Further configurations *)

Module MoreExamples.

(** The Transformer default and its parts. *)
Definition transformer_512 : gmap string value :=
  Descriptors.defaultParams Registry.Transformer.

Definition ffn_in : gmap string value :=
  {[ "input_dim" := VNum (num 512); "output_dim" := VNum (num 2048);
     "use_bias" := VBool true ]}.

Definition ffn_out : gmap string value :=
  {[ "input_dim" := VNum (num 2048); "output_dim" := VNum (num 512);
     "use_bias" := VBool true ]}.

(** A model of four default layers. *)
Definition four_layers : list LayerCal.Layer :=
  [ LayerCal.mkLayer (num 11) Registry.Embedding
      (Descriptors.defaultParams Registry.Embedding);
    LayerCal.mkLayer (num 12) Registry.Lstm
      (Descriptors.defaultParams Registry.Lstm);
    LayerCal.mkLayer (num 13) Registry.Dropout
      (Descriptors.defaultParams Registry.Dropout);
    LayerCal.mkLayer (num 14) Registry.Linear
      (Descriptors.defaultParams Registry.Linear) ].

End MoreExamples.

(** ** The specification's reading of the recurrent formulas *)

Module Spec.

(** The sum of [term layer] over the layers [0 .. L-1]. *)
Definition sum_over_layers (L : Z) (term : Z → Z) : Z :=
  foldr (λ layer rest, term layer + rest) 0 (seqZ 0 L).

(** The input dimension of a layer: the configured input size for layer
    0, [H * dir] for every later layer. *)
Definition layer_input_dim (I H dir layer : Z) : Z :=
  if bool_decide (layer = 0) then I else H * dir.

(** The parameters of one recurrent layer:
    [dir * gates * (input_dim * H + H^2 + 2 H)]. *)
Definition layer_parameters (gates I H dir layer : Z) : Z :=
  dir * gates * (layer_input_dim I H dir layer * H + H ^ 2 + 2 * H).

(** [dir = 2] if bidirectional, else 1. *)
Definition dir (bidirectional : bool) : Z := if bidirectional then 2 else 1.

(** The FLOPs of one recurrent layer at sequence length [s]:
    [gates * 2 * (input_dim * H + H^2) * s * dir]. *)
Definition layer_flops (gates I H d s layer : Z) : Z :=
  gates * 2 * (layer_input_dim I H d layer * H + H * H) * s * d.

End Spec.

(** ** Configurations of the registry's defaults and tests *)

Module Examples.

(** Linear, 512 inputs, 256 outputs, with bias. *)
Definition linear_512_256 : gmap string value :=
  {[ "input_dim" := VNum (num 512); "output_dim" := VNum (num 256);
     "use_bias" := VBool true ]}.

(** The recurrent default: 128 inputs, 256 hidden units, one layer, one
    direction. *)
Definition recurrent_128_256 : gmap string value :=
  {[ "input_size" := VNum (num 128); "hidden_size" := VNum (num 256);
     "num_layers" := VNum (num 1); "bidirectional" := VBool false ]}.

(** Two stacked bidirectional layers. *)
Definition recurrent_stacked : gmap string value :=
  {[ "input_size" := VNum (num 128); "hidden_size" := VNum (num 256);
     "num_layers" := VNum (num 2); "bidirectional" := VBool true ]}.

(** The defaults of the two normalization layers. *)
Definition batchnorm_128 : gmap string value :=
  {[ "num_features" := VNum (num 128) ]}.

Definition layernorm_512 : gmap string value :=
  {[ "normalized_shape" := VNum (num 512) ]}.

(** A model of two layers: the Linear layer above and a Dropout. *)
Definition linear_dropout : list LayerCal.Layer :=
  [ LayerCal.mkLayer (num 1) Registry.Linear linear_512_256;
    LayerCal.mkLayer (num 2) Registry.Dropout
      {[ "rate" := VNum (Fin (Q2Qc (1 # 10))) ]} ].

(** A model without parameters. *)
Definition activations : list LayerCal.Layer :=
  [ LayerCal.mkLayer (num 7) Registry.Relu ∅;
    LayerCal.mkLayer (num 8) Registry.Softmax ∅ ].

(** A Linear layer, a stacked recurrent layer and an activation. *)
Definition three_layers : list LayerCal.Layer :=
  [ LayerCal.mkLayer (num 1) Registry.Linear linear_512_256;
    LayerCal.mkLayer (num 2) Registry.Lstm recurrent_stacked;
    LayerCal.mkLayer (num 3) Registry.Relu ∅ ].

(** Two Linear layers that differ in [output_dim] only, between two
    pairs of equal layers. *)
Definition linear_512_128 : gmap string value :=
  <["output_dim" := VNum (num 128)]> linear_512_256.

Definition six_layers : list LayerCal.Layer :=
  [ LayerCal.mkLayer (num 1) Registry.Relu ∅;
    LayerCal.mkLayer (num 2) Registry.Relu ∅;
    LayerCal.mkLayer (num 3) Registry.Linear linear_512_256;
    LayerCal.mkLayer (num 4) Registry.Linear linear_512_128;
    LayerCal.mkLayer (num 5) Registry.Linear linear_512_128;
    LayerCal.mkLayer (num 6) Registry.Relu ∅ ].

End Examples.

(** * Properties *)

Import Registry LayerCal Grouping Examples.

(** ** Rounding *)

(** Moves a goal on canonical rationals to the rationals, where [lra]
    decides linear arithmetic. *)
Ltac qc_to_q :=
  unfold Qcle, Qclt, Qcminus, Qcdiv in *;
  repeat match goal with
  | H : @eq Qc ?a ?b |- _ =>
      let H' := fresh in
      assert (H' : (this a == this b)%Q) by (rewrite H; reflexivity); clear H
  | |- @eq Qc _ _ => apply Qc_is_canon
  end;
  cbn [this Qcplus Qcmult Qcopp Q2Qc Qc_of_Z] in *;
  rewrite ?Qred_correct in *.

Ltac qc_lra := qc_to_q; lra.

Lemma Z2Qc_pos z : 0 < z → (0 < Qc_of_Z z)%Qc.
Proof. intros. rewrite <-Z2Qc_inj_0, <-Z2Qc_inj_lt. done. Qed.

Lemma pow2_nonneg e : 0 ≤ e → pow2 e = Qc_of_Z (2 ^ e).
Proof. intros. unfold pow2. by rewrite decide_True. Qed.

Lemma pow2_neg e : e < 0 → pow2 e = (/ Qc_of_Z (2 ^ (- e)))%Qc.
Proof. intros. unfold pow2. rewrite decide_False; [done|lia]. Qed.

Lemma pow2_pos e : (0 < pow2 e)%Qc.
Proof.
  destruct (decide (0 ≤ e)).
  - rewrite pow2_nonneg by done. apply Z2Qc_pos. lia.
  - rewrite pow2_neg by lia. apply Qcinv_pos, Z2Qc_pos. lia.
Qed.

Lemma pow2_ne e : pow2 e ≠ 0%Qc.
Proof. intros H. pose proof (pow2_pos e) as H'. rewrite H in H'. by apply Qclt_not_eq in H'. Qed.

Lemma pow2_add_nonneg e k : 0 ≤ k → 0 ≤ e + k → (pow2 e * pow2 k)%Qc = pow2 (e + k).
Proof.
  intros Hk He. rewrite (pow2_nonneg k), (pow2_nonneg (e + k)) by done.
  destruct (decide (0 ≤ e)).
  - rewrite pow2_nonneg by done. by rewrite <-Z2Qc_inj_mul, <-Z.pow_add_r.
  - rewrite pow2_neg by lia.
    replace k with (e + k + - e) at 1 by lia.
    rewrite Z.pow_add_r, Z2Qc_inj_mul by lia.
    assert (Qc_of_Z (2 ^ (- e)) ≠ 0%Qc).
    { intros H. rewrite <-Z2Qc_inj_0 in H. apply Z2Qc_inj in H. lia. }
    field. done.
Qed.

Lemma Qcle_eq (x y : Qc) : x = y → (x ≤ y)%Qc.
Proof. intros ->. apply Qcle_refl. Qed.

Lemma Qcmult_cancel_r (x y z : Qc) : z ≠ 0%Qc → (x * z = y * z)%Qc → x = y.
Proof.
  intros Hz H. rewrite <-(Qcmult_1_r x), <-(Qcmult_1_r y), <-(Qcmult_inv_r z) by done.
  rewrite !Qcmult_assoc. congruence.
Qed.

Lemma pow2_add a b : pow2 (a + b) = (pow2 a * pow2 b)%Qc.
Proof.
  set (K := Z.abs a + Z.abs b).
  apply (Qcmult_cancel_r _ _ (pow2 (K + K))); [apply pow2_ne|].
  rewrite pow2_add_nonneg by lia.
  rewrite <-(pow2_add_nonneg K K) by lia.
  transitivity ((pow2 a * pow2 K) * (pow2 b * pow2 K))%Qc; [|ring].
  rewrite !pow2_add_nonneg by lia.
  rewrite !pow2_nonneg by lia.
  f_equal. f_equal. lia.
Qed.

Lemma pow2_0 : pow2 0 = 1%Qc.
Proof. rewrite pow2_nonneg by done. apply Z2Qc_inj_1. Qed.

Lemma pow2_opp e : (pow2 e * pow2 (- e))%Qc = 1%Qc.
Proof. rewrite <-pow2_add, Z.add_opp_diag_r. apply pow2_0. Qed.

Lemma pow2_le a b : a ≤ b → (pow2 a ≤ pow2 b)%Qc.
Proof.
  intros. replace b with (a + (b - a)) by lia. rewrite pow2_add.
  rewrite <-(Qcmult_1_r (pow2 a)) at 1.
  apply Qcmult_le_mono_nonneg_l; [apply Qclt_le_weak, pow2_pos|].
  rewrite pow2_nonneg by lia. rewrite <-Z2Qc_inj_1, <-Z2Qc_inj_le.
  pose proof (Z.pow_pos_nonneg 2 (b - a)). lia.
Qed.

Lemma pow2_lt a b : a < b → (pow2 a < pow2 b)%Qc.
Proof.
  intros. replace b with (a + (b - a)) by lia. rewrite pow2_add.
  rewrite <-(Qcmult_1_r (pow2 a)) at 1.
  apply Qcmult_lt_mono_pos_l; [apply pow2_pos|].
  rewrite pow2_nonneg by lia. rewrite <-Z2Qc_inj_1, <-Z2Qc_inj_lt.
  apply Z.pow_gt_1; lia.
Qed.

Lemma pow2_lt_inv a b : (pow2 a < pow2 b)%Qc → a < b.
Proof.
  intros H. destruct (decide (a < b)); [done|].
  apply Qclt_not_le in H. destruct H. apply pow2_le. lia.
Qed.

(** *** The binary exponent *)

Lemma Qc_num_den (x : Qc) : (x * Qc_of_Z (Z.pos (Qden x)))%Qc = Qc_of_Z (Qnum x).
Proof.
  apply Qc_is_canon. destruct x as [[a b] Hx]. cbn. rewrite !Qred_correct.
  unfold Qeq, Qmult, inject_Z. cbn. rewrite Pos.mul_1_r. ring.
Qed.

Lemma Qc_num_pos (x : Qc) : (0 < x)%Qc → 0 < Qnum x.
Proof.
  destruct x as [[a b] Hx]. unfold Qclt. cbn [this Q2Qc]. rewrite Qred_correct.
  unfold Qlt. cbn. lia.
Qed.

Lemma exponent_spec x : (0 < x)%Qc → (pow2 (exponent x) ≤ x < pow2 (exponent x + 1))%Qc.
Proof.
  intros Hx. pose proof (Qc_num_pos x Hx) as Ha. pose proof (Qc_num_den x) as Hab.
  assert (0 < Z.pos (Qden x)) as Hb by lia.
  set (a := Qnum x) in *. set (b := Z.pos (Qden x)) in *.
  pose proof (Z.log2_spec a Ha) as [Ha1 Ha2].
  pose proof (Z.log2_spec b Hb) as [Hb1 Hb2].
  pose proof (Z.log2_nonneg a). pose proof (Z.log2_nonneg b).
  assert (0 < Qc_of_Z b)%Qc as Hbq by by apply Z2Qc_pos.
  assert (pow2 (Z.log2 a - Z.log2 b - 1) ≤ x)%Qc as Hlo.
  { apply (Qcmult_le_mono_pos_r _ _ (Qc_of_Z b * pow2 (Z.succ (Z.log2 b)))).
    { apply Qcmult_pos_pos; [done|apply pow2_pos]. }
    rewrite !Qcmult_assoc, Hab.
    transitivity (pow2 (Z.log2 a) * Qc_of_Z b)%Qc.
    { replace (Z.log2 a) with ((Z.log2 a - Z.log2 b - 1) + Z.succ (Z.log2 b)) at 2 by lia.
      rewrite pow2_add. apply Qcle_eq. ring. }
    rewrite !pow2_nonneg by lia. rewrite <-!Z2Qc_inj_mul, <-Z2Qc_inj_le. nia. }
  assert (x < pow2 (Z.log2 a - Z.log2 b + 1))%Qc as Hhi.
  { apply (Qcmult_lt_mono_pos_r _ _ (Qc_of_Z b * pow2 (Z.log2 b))).
    { apply Qcmult_pos_pos; [done|apply pow2_pos]. }
    rewrite !Qcmult_assoc, Hab.
    apply Qclt_le_trans with (pow2 (Z.succ (Z.log2 a)) * Qc_of_Z b)%Qc.
    - rewrite !pow2_nonneg by lia. rewrite <-!Z2Qc_inj_mul, <-Z2Qc_inj_lt. nia.
    - replace (Z.succ (Z.log2 a)) with ((Z.log2 a - Z.log2 b + 1) + Z.log2 b) by lia.
      rewrite pow2_add. apply Qcle_eq. ring. }
  unfold exponent. fold a b. case_decide as Hl.
  - split; [done|]. done.
  - split; [done|]. apply Qcnot_le_lt in Hl.
    by replace (Z.log2 a - Z.log2 b - 1 + 1) with (Z.log2 a - Z.log2 b) by lia.
Qed.

Lemma exponent_unique x e : (pow2 e ≤ x < pow2 (e + 1))%Qc → exponent x = e.
Proof.
  intros [H1 H2].
  assert (0 < x)%Qc as Hx by (eapply Qclt_le_trans; [apply pow2_pos|done]).
  destruct (exponent_spec x Hx) as [H3 H4].
  assert (e < exponent x + 1).
  { apply pow2_lt_inv. eapply Qcle_lt_trans; done. }
  assert (exponent x < e + 1).
  { apply pow2_lt_inv. eapply Qcle_lt_trans; done. }
  lia.
Qed.

(** *** Rounding to the nearest integer *)

Lemma Qfloor_Z2Qc n : Qfloor (Qc_of_Z n) = n.
Proof. apply Qfloor_Z. Qed.

Lemma nearest_even_Z n : nearest_even (Qc_of_Z n) = n.
Proof.
  unfold nearest_even. rewrite Qfloor_Z2Qc.
  rewrite decide_True; [done|]. qc_lra.
Qed.

Lemma nearest_even_error q :
  (Qc_of_Z (nearest_even q) - Q2Qc (1 # 2) ≤ q ≤ Qc_of_Z (nearest_even q) + Q2Qc (1 # 2))%Qc.
Proof.
  pose proof (Qfloor_le q) as H1. pose proof (Qlt_floor q) as H2.
  rewrite inject_Z_plus in H2.
  unfold nearest_even.
  repeat case_decide; [|rewrite Z2Qc_inj_add|destruct (Z.even _); [|rewrite Z2Qc_inj_add]];
    split; qc_to_q; change (inject_Z 1) with 1%Q in *;
    set (f := inject_Z (Qfloor q)) in *; clearbody f; lra.
Qed.

(** *** Rounding to the nearest double *)

Lemma pow2_inv e : (/ pow2 e)%Qc = pow2 (- e).
Proof.
  apply (Qcmult_cancel_r _ _ (pow2 e)); [apply pow2_ne|].
  rewrite Qcmult_inv_l by apply pow2_ne.
  by rewrite Qcmult_comm, pow2_opp.
Qed.

Lemma Z2Qc_pow2 z k : 0 ≤ k → (Qc_of_Z z * pow2 k)%Qc = Qc_of_Z (z * 2 ^ k).
Proof. intros. by rewrite pow2_nonneg, Z2Qc_inj_mul. Qed.

Lemma exponent_dyadic m k : 0 < m → exponent (Qc_of_Z m * pow2 k) = Z.log2 m + k.
Proof.
  intros Hm. apply exponent_unique.
  destruct (Z.log2_spec m Hm) as [H1 H2]. pose proof (Z.log2_nonneg m).
  replace (Z.log2 m + k + 1) with (Z.succ (Z.log2 m) + k) by lia.
  rewrite !pow2_add, !(pow2_nonneg (Z.log2 m)), !(pow2_nonneg (Z.succ _)) by lia.
  split.
  - apply Qcmult_le_mono_nonneg_r; [apply Qclt_le_weak, pow2_pos|].
    by rewrite <-Z2Qc_inj_le.
  - apply Qcmult_lt_mono_pos_r; [apply pow2_pos|]. by rewrite <-Z2Qc_inj_lt.
Qed.

Lemma nearest_dyadic m k :
  0 < m < 2 ^ 53 → -1074 ≤ k →
  nearest (Qc_of_Z m * pow2 k) = (Qc_of_Z m * pow2 k)%Qc.
Proof.
  intros [Hm1 Hm2] Hk. unfold nearest, quantum. rewrite exponent_dyadic by done.
  assert (Z.log2 m < 53) by (apply Z.log2_lt_pow2; lia).
  set (qe := Z.max _ _). assert (qe ≤ k) by lia.
  replace (Qc_of_Z m * pow2 k / pow2 qe)%Qc with (Qc_of_Z (m * 2 ^ (k - qe))).
  - rewrite nearest_even_Z, <-Z2Qc_pow2, <-Qcmult_assoc, <-pow2_add by lia.
    do 2 f_equal. lia.
  - rewrite <-Z2Qc_pow2 by lia. unfold Qcdiv. rewrite pow2_inv, <-Qcmult_assoc, <-pow2_add.
    do 2 f_equal.
Qed.

Lemma quantum_ge x : -1074 ≤ quantum x.
Proof. unfold quantum. lia. Qed.

Lemma nearest_form x :
  (0 < x)%Qc →
  ∃ m, 0 ≤ m ≤ 2 ^ 53 ∧ nearest x = (Qc_of_Z m * pow2 (quantum x))%Qc.
Proof.
  intros Hx. exists (nearest_even (x / pow2 (quantum x))). split; [|done].
  destruct (exponent_spec x Hx) as [_ He].
  set (s := (x / pow2 (quantum x))%Qc).
  assert (0 < s)%Qc as Hs1.
  { apply Qcmult_pos_pos; [done|]. apply Qcinv_pos, pow2_pos. }
  assert (s < Qc_of_Z (2 ^ 53))%Qc as Hs2.
  { unfold s. apply (Qcmult_lt_mono_pos_r _ _ (pow2 (quantum x))); [apply pow2_pos|].
    unfold Qcdiv. rewrite <-Qcmult_assoc, Qcmult_inv_l, Qcmult_1_r by apply pow2_ne.
    eapply Qclt_le_trans; [done|].
    rewrite <-(pow2_nonneg 53), <-pow2_add by done. apply pow2_le. unfold quantum. lia. }
  destruct (nearest_even_error s) as [H1 H2].
  set (n := nearest_even s) in *. clearbody n s.
  assert (Qc_of_Z (n - 1) < Qc_of_Z (2 ^ 53))%Qc as H3.
  { rewrite Z2Qc_inj_sub. qc_to_q. change (inject_Z 1) with 1%Q. lra. }
  assert (Qc_of_Z (-1) < Qc_of_Z n)%Qc as H4.
  { qc_to_q. change (inject_Z (-1)) with (-1)%Q. lra. }
  apply Z2Qc_inj_lt in H3, H4. lia.
Qed.

Lemma nearest_error x :
  (pow2 (-1022) ≤ x)%Qc →
  (x - x * pow2 (-53) ≤ nearest x ≤ x + x * pow2 (-53))%Qc.
Proof.
  intros Hx.
  assert (0 < x)%Qc as Hx0 by (eapply Qclt_le_trans; [apply pow2_pos|done]).
  destruct (exponent_spec x Hx0) as [He1 He2].
  assert (-1022 < exponent x + 1).
  { apply pow2_lt_inv. eapply Qcle_lt_trans; done. }
  unfold nearest. replace (quantum x) with (exponent x - 52) by (unfold quantum; lia).
  set (qe := exponent x - 52).
  destruct (nearest_even_error (x / pow2 qe)) as [H1 H2].
  set (n := Qc_of_Z (nearest_even _)) in *. clearbody n.
  assert (pow2 qe * Q2Qc (1 # 2) ≤ x * pow2 (-53))%Qc as Hq.
  { transitivity (pow2 (exponent x) * pow2 (-53))%Qc.
    - rewrite <-pow2_add. replace (exponent x + -53) with (qe + -1) by (unfold qe; lia).
      rewrite pow2_add. apply Qcle_eq. f_equal.
    - apply Qcmult_le_mono_nonneg_r; [apply Qclt_le_weak, pow2_pos|done]. }
  apply (Qcmult_le_mono_nonneg_r _ _ (pow2 qe)) in H1, H2;
    try apply Qclt_le_weak, pow2_pos.
  unfold Qcdiv in H1, H2.
  rewrite <-Qcmult_assoc, Qcmult_inv_l, Qcmult_1_r in H1, H2 by apply pow2_ne.
  set (p := pow2 qe) in *. set (u := (x * pow2 (-53))%Qc) in *. clearbody p u.
  split; qc_to_q; nra.
Qed.

(** *** Doubles *)

Lemma Qcopp_lt_0 (x : Qc) : (x < 0 → 0 < - x)%Qc.
Proof. intros. qc_lra. Qed.

Lemma round_pos x :
  (0 < x)%Qc →
  round x = if decide (nearest x < pow2 1024)%Qc then Fin (nearest x) else PosInf.
Proof.
  intros Hx. unfold round. rewrite decide_False, decide_True; [done..|].
  intros ->. by apply Qclt_not_eq in Hx.
Qed.

Lemma round_neg x :
  (x < 0)%Qc →
  round x = if decide (nearest (- x) < pow2 1024)%Qc then Fin (- nearest (- x)) else NegInf.
Proof.
  intros Hx. unfold round. rewrite decide_False, decide_False; [done|..].
  - intros H. eapply Qclt_not_eq; [|done]. by eapply Qclt_trans.
  - intros ->. by apply Qclt_not_eq in Hx.
Qed.

Lemma is_double_opp d : is_double d → is_double (- d).
Proof.
  intros (m & k & -> & ? & ?). exists (- m), k. split; [|lia].
  rewrite Z2Qc_inj_opp. ring.
Qed.

Lemma is_double_0 : is_double 0.
Proof. exists 0, 0. split; [|lia]. rewrite Z2Qc_inj_0. ring. Qed.

Lemma is_double_Z z : Z.abs z ≤ 2 ^ 53 → is_double (Qc_of_Z z).
Proof.
  unfold is_double. change (2 ^ 53) with 9007199254740992.
  intros Hz. destruct (decide (Z.abs z = 9007199254740992)) as [Hz'|].
  - assert (z = 9007199254740992 ∨ z = -9007199254740992) as [->| ->] by lia.
    + exists 4503599627370496, 1. split; [|lia]. rewrite Z2Qc_pow2 by lia. done.
    + exists (-4503599627370496), 1. split; [|lia]. rewrite Z2Qc_pow2 by lia. done.
  - exists z, 0. split; [|lia]. by rewrite pow2_0, Qcmult_1_r.
Qed.

Lemma is_double_scale d j : is_double d → 0 ≤ j → is_double (d * pow2 j).
Proof.
  intros (m & k & -> & ? & ?) ?. exists m, (k + j). split; [|lia].
  by rewrite pow2_add, Qcmult_assoc.
Qed.

Lemma nearest_double d : is_double d → (0 < d)%Qc → nearest d = d.
Proof.
  intros (m & k & -> & Hm & Hk) Hd. apply nearest_dyadic; [|done].
  split; [|lia]. destruct (decide (0 < m)); [done|].
  apply Qclt_not_le in Hd. destruct Hd.
  rewrite <-(Qcmult_0_l (pow2 k)).
  apply Qcmult_le_mono_nonneg_r; [apply Qclt_le_weak, pow2_pos|].
  rewrite <-Z2Qc_inj_0, <-Z2Qc_inj_le. lia.
Qed.

Lemma is_double_nearest x : (0 < x)%Qc → is_double (nearest x).
Proof.
  intros Hx. destruct (nearest_form x Hx) as (m & Hm & ->).
  pose proof (quantum_ge x).
  destruct (decide (m = 2 ^ 53)) as [->|].
  - exists (2 ^ 52), (quantum x + 1). split; [|lia].
    rewrite pow2_add, (pow2_nonneg 1) by lia.
    replace (Qc_of_Z (2 ^ 53)) with (Qc_of_Z (2 ^ 52) * Qc_of_Z (2 ^ 1))%Qc
      by (by rewrite <-Z2Qc_inj_mul).
    ring.
  - exists m, (quantum x). split; [done|lia].
Qed.

(** A double is rounded to itself. *)
Lemma round_double d : is_double d → in_range d → round d = Fin d.
Proof.
  intros Hd [H1 H2]. destruct (decide (d = 0%Qc)) as [->|Hd0]; [done|].
  destruct (decide (0 < d)%Qc) as [Hpos|Hneg].
  - rewrite round_pos, nearest_double by done. by rewrite decide_True.
  - assert (d < 0)%Qc as Hlt.
    { apply Qcnot_le_lt. intros H. apply Qcle_lt_or_eq in H as [|]; [done|]. by destruct Hd0. }
    rewrite round_neg, nearest_double by auto using is_double_opp, Qcopp_lt_0.
    rewrite decide_True; [by rewrite Qcopp_involutive|]. qc_lra.
Qed.

(** Every in_range result of a rounding is a double. *)
Lemma round_is_double x d : round x = Fin d → is_double d ∧ in_range d.
Proof.
  unfold round. pose proof (pow2_pos 1024) as Hp.
  repeat case_decide; intros; simplify_eq.
  - split; [apply is_double_0|]. split; qc_lra.
  - split; [by apply is_double_nearest|].
    pose proof (is_double_nearest x) as Hn. split; [|done].
    destruct (nearest_form x) as (m & Hm & H'); [done|].
    apply Qclt_le_trans with 0%Qc; [qc_lra|].
    rewrite H'. apply Qcmult_nonneg_nonneg; [|apply Qclt_le_weak, pow2_pos].
    rewrite <-Z2Qc_inj_0, <-Z2Qc_inj_le. lia.
  - assert (0 < - x)%Qc as Hx.
    { apply Qcopp_lt_0, Qcnot_le_lt. intros ?. 
      match goal with H : ¬ (0 < x)%Qc |- _ => apply H end.
      apply Qcle_lt_or_eq in H2 as [|]; [done|]. by subst. }
    split; [by apply is_double_opp, is_double_nearest|].
    destruct (nearest_form (- x)) as (m & Hm & H'); [done|].
    assert (0 ≤ nearest (- x))%Qc.
    { rewrite H'. apply Qcmult_nonneg_nonneg; [|apply Qclt_le_weak, pow2_pos].
      rewrite <-Z2Qc_inj_0, <-Z2Qc_inj_le. lia. }
    split; qc_lra.
Qed.

Lemma round_idemp x d : round x = Fin d → round d = Fin d.
Proof. intros [??]%round_is_double. by apply round_double. Qed.

Lemma in_range_Z z : Z.abs z ≤ 2 ^ 53 → in_range (Qc_of_Z z).
Proof.
  intros Hz. unfold in_range. rewrite pow2_nonneg by lia.
  rewrite <-Z2Qc_inj_opp, <-!Z2Qc_inj_lt.
  assert (2 ^ 53 < 2 ^ 1024) by (by vm_compute). lia.
Qed.

Lemma round_Z z : Z.abs z ≤ 2 ^ 53 → round (Qc_of_Z z) = num z.
Proof. intros Hz. apply round_double; [by apply is_double_Z|by apply in_range_Z]. Qed.

(** The relative error of a rounding in the normal range is at most
    2^-53. *)
Lemma round_error (x : Qc) :
  (pow2 (-1022) ≤ x ≤ pow2 1023)%Qc →
  ∃ y : Qc,
    round x = Fin y ∧ is_double y ∧
    (x - x * pow2 (-53) ≤ y ≤ x + x * pow2 (-53))%Qc.
Proof.
  intros [Hlo Hhi].
  assert (0 < x)%Qc as Hx by (eapply Qclt_le_trans; [apply pow2_pos|done]).
  destruct (nearest_error x Hlo) as [H1 H2].
  exists (nearest x). split; [|split; [by apply is_double_nearest|done]].
  rewrite round_pos by done. rewrite decide_True; [done|].
  eapply Qcle_lt_trans; [exact H2|].
  apply Qcle_lt_trans with (pow2 1023 + pow2 1023 * pow2 (-53))%Qc.
  - apply Qcplus_le_compat; [done|].
    apply Qcmult_le_mono_nonneg_r; [apply Qclt_le_weak, pow2_pos|done].
  - rewrite <-pow2_add. replace 1024 with (1023 + 1) by done.
    rewrite (pow2_add 1023 1).
    assert (pow2 (1023 + -53) < pow2 1023)%Qc by (apply pow2_lt; lia).
    replace (pow2 1) with (Q2Qc 2) by (by apply Qc_is_canon).
    set (u := pow2 1023) in *. set (v := pow2 (1023 + -53)) in *. clearbody u v.
    qc_lra.
Qed.

(** A rounded number is a double, and an operand as it is. *)
Lemma double_round (x : Qc) : double (round x) = round x.
Proof.
  destruct (round x) as [d| | |] eqn:Hd; try done. simpl. by apply (round_idemp x).
Qed.

Lemma double_idemp (a : number) : double (double a) = double a.
Proof. destruct a; try done. apply double_round. Qed.

(** ** Arithmetic on integer-valued numbers *)

Section Numbers.

Implicit Types a b c : Z.

(** An integer up to 2^53 in magnitude is a double. *)
Lemma double_num a : Z.abs a ≤ 2 ^ 53 → double (num a) = num a.
Proof. apply round_Z. Qed.

(** Sums and products of integers are exact while operands and result
    stay within 2^53. *)
Lemma add_num a b :
  Z.abs a ≤ 2 ^ 53 → Z.abs b ≤ 2 ^ 53 → Z.abs (a + b) ≤ 2 ^ 53 →
  (num a + num b)%js = num (a + b).
Proof.
  intros Ha Hb Hab. unfold add. rewrite !double_num by done.
  unfold num at 1 2. rewrite <-Z2Qc_inj_add. by apply round_Z.
Qed.

Lemma mul_num a b :
  Z.abs a ≤ 2 ^ 53 → Z.abs b ≤ 2 ^ 53 → Z.abs (a * b) ≤ 2 ^ 53 →
  (num a * num b)%js = num (a * b).
Proof.
  intros Ha Hb Hab. unfold mul. rewrite !double_num by done.
  unfold num at 1 2. rewrite <-Z2Qc_inj_mul. by apply round_Z.
Qed.

Lemma num_inj a b : num a = num b → a = b.
Proof. by intros [= H]. Qed.

Lemma lt_num a b : lt (num a) (num b) = bool_decide (a < b).
Proof.
  unfold num, lt. apply bool_decide_ext. symmetry. apply Z2Qc_inj_lt.
Qed.

End Numbers.

(** Computes the sums and products of integers in the goal, from the
    innermost on; the bounds are left to linear arithmetic over the
    products at hand. *)
Ltac js_exact :=
  repeat first [ rewrite mul_num by lia | rewrite add_num by lia ].

(** Two finite numbers of the same rational value are equal. *)
Lemma Fin_canon (x y : Qc) : (x == y)%Q → Fin x = Fin y.
Proof. intros H. f_equal. by apply Qc_is_canon. Qed.

(** Decides an equation between closed numbers. *)
Ltac closed_number :=
  vm_compute; repeat (apply (f_equal (@Some number))); apply Fin_canon; reflexivity.

(** Reading a field that holds an integer, or a checkbox. *)
Lemma field_num (params : gmap string value) key z :
  params !! key = Some (VNum (num z)) → field params key = num z.
Proof. unfold field. by intros ->. Qed.

Lemma flag_bool (params : gmap string value) key b :
  params !! key = Some (VBool b) → flag params key = b.
Proof. unfold flag. by intros ->. Qed.

(** Rewrites the fields read in the goal with the hypotheses on the
    configuration, and computes on the integers. *)
Ltac read_fields :=
  repeat match goal with
  | H : ?p !! ?k = Some (VNum (num ?z)) |- context [field ?p ?k] =>
      rewrite (field_num p k z H)
  | H : ?p !! ?k = Some (VBool ?b) |- context [flag ?p ?k] =>
      rewrite (flag_bool p k b H)
  end.

(** ** The formula registry *)

(** Beyond 2^53 the code rounds: for 94906267 inputs and outputs it
    returns 18014399031750576 FLOPs, two less than [2 * I * O]. *)
Lemma linear_flops_rounded :
  linear.calculateFLOPs
    {[ "input_dim" := VNum (num 94906267); "output_dim" := VNum (num 94906267);
       "use_bias" := VBool true ]}
  = num 18014399031750576 ∧
  2 * 94906267 * 94906267 = 18014399031750578.
Proof. split; [closed_number|reflexivity]. Qed.

(** C7. A Linear layer with input dimension [I], output dimension [O]
    (positive integers with [2 * I * O] at most 2^53, so that every
    count is an exact double) and bias flag [b] has [I * O + O]
    parameters when [b] is set and [I * O] otherwise, and [2 * I * O]
    FLOPs whatever the flag; for 512 inputs, 256 outputs and a bias that
    is 131328 parameters and 262144 FLOPs. *)
Theorem linear_calculate_spec :
  (∀ (params : gmap string value) (I O : Z) (b : bool),
     params !! "input_dim" = Some (VNum (num I)) →
     params !! "output_dim" = Some (VNum (num O)) →
     params !! "use_bias" = Some (VBool b) →
     1 ≤ I → 1 ≤ O → 2 * I * O ≤ 2 ^ 53 →
     linear.calculate params = num (if b then I * O + O else I * O) ∧
     linear.calculateFLOPs params = num (2 * I * O)) ∧
  linear.calculate linear_512_256 = num 131328 ∧
  linear.calculateFLOPs linear_512_256 = num 262144.
Proof.
  assert (G : ∀ (params : gmap string value) (I O : Z) (b : bool),
     params !! "input_dim" = Some (VNum (num I)) →
     params !! "output_dim" = Some (VNum (num O)) →
     params !! "use_bias" = Some (VBool b) →
     1 ≤ I → 1 ≤ O → 2 * I * O ≤ 2 ^ 53 →
     linear.calculate params = num (if b then I * O + O else I * O) ∧
     linear.calculateFLOPs params = num (2 * I * O)).
  { intros params I O b HI HO Hb HI1 HO1 Hbound.
    assert (I ≤ I * O ∧ O ≤ I * O) as [??] by nia.
    unfold linear.calculate, linear.calculateFLOPs. read_fields.
    destruct b; js_exact; split; f_equal; lia. }
  split; [exact G|].
  apply (G linear_512_256 512 256 true); (reflexivity || lia).
Qed.

Lemma linear_calculate_spec_witness :
  linear.calculate (<["extra" := VBool false]> linear_512_256) = num 131328 ∧
  linear.calculateFLOPs (<["extra" := VBool false]> linear_512_256) = num 262144.
Proof.
  destruct linear_calculate_spec as [G _].
  apply (G _ 512 256 true); (reflexivity || lia).
Defined.

(** C1, as stated, fails for LayerNorm: with the context omitted, 512
    normalised features cost 512 * 32 * 512 * 5 FLOPs, not
    512 * 32 * 1 * 5. *)
Lemma layernorm_default_flops_counterexample :
  layernorm.calculateFLOPs layernorm_512 None None ≠ num (512 * 32 * 1 * 5).
Proof.
  unfold layernorm.calculateFLOPs.
  rewrite (field_num _ "normalized_shape" 512) by reflexivity. simpl.
  js_exact. intros H%num_inj. discriminate H.
Qed.

(** C1, amended. With the context omitted, BatchNorm takes batch size 32
    and spatial multiplier 1, so its FLOPs are [F * 32 * 1 * 4]; LayerNorm
    takes batch size 32 and sequence length 512, so its FLOPs are
    [N * 32 * 512 * 5].  The feature counts [F] and [N] are integers that
    are not negative, with FLOPs of at most 2^53, the range in which the
    products of doubles are exact. *)
Theorem normalization_default_flops (bn ln : gmap string value) (F N : Z) :
  bn !! "num_features" = Some (VNum (num F)) →
  ln !! "normalized_shape" = Some (VNum (num N)) →
  0 ≤ F → F * 32 * 1 * 4 ≤ 2 ^ 53 →
  0 ≤ N → N * 32 * 512 * 5 ≤ 2 ^ 53 →
  batchnorm.calculateFLOPs bn None None = num (F * 32 * 1 * 4) ∧
  layernorm.calculateFLOPs ln None None = num (N * 32 * 512 * 5).
Proof.
  intros HF HN HF0 HFb HN0 HNb.
  unfold batchnorm.calculateFLOPs, layernorm.calculateFLOPs.
  read_fields. simpl. by js_exact.
Qed.

Lemma normalization_default_flops_witness :
  batchnorm.calculateFLOPs batchnorm_128 None None = num 16384 ∧
  layernorm.calculateFLOPs layernorm_512 None None = num 41943040.
Proof.
  apply (normalization_default_flops batchnorm_128 layernorm_512 128 512);
    (reflexivity || lia).
Defined.

(** Beyond that range the code rounds: 2^52 + 1 normalised features
    cost 2^68 FLOPs, not [(2^52 + 1) * 32 * 512 * 5]. *)
Lemma layernorm_flops_rounded :
  layernorm.calculateFLOPs {[ "normalized_shape" := VNum (num (2 ^ 52 + 1)) ]}
    None None
  = num 368934881474191097856 ∧
  (2 ^ 52 + 1) * 32 * 512 * 5 = 368934881474191114240.
Proof. split; [closed_number|reflexivity]. Qed.

(** ** The recurrent layers *)

Lemma loop_count_num (L : Z) :
  L ≤ 2 ^ 53 → loop_count (num L) = Some (Z.to_nat L).
Proof.
  intros HL. unfold loop_count, num.
  rewrite decide_True by (by rewrite <-Z2Qc_inj_le). simpl. by rewrite Qceiling_Z.
Qed.

(** A loop up to a bound above 2^53 never ends. *)
Lemma loop_count_beyond (L : Z) : 2 ^ 53 < L → loop_count (num L) = None.
Proof.
  intros HL. unfold loop_count, num.
  rewrite decide_False; [done|]. rewrite <-Z2Qc_inj_le. lia.
Qed.

(** [loop_count] is the number of counter values that pass the test of
    the loop. *)
Lemma loop_count_test (bound : number) (n : nat) (layer : Z) :
  loop_count bound = Some n → 0 ≤ layer →
  lt (num layer) bound = true ↔ layer < Z.of_nat n.
Proof.
  intros Hn Hlayer. destruct bound as [q| | |]; simplify_eq/=.
  - case_decide as Hq; simplify_eq.
    unfold num, lt. rewrite bool_decide_eq_true.
    change (Qc_of_Z layer < q)%Qc with (inject_Z layer < q)%Q.
    pose proof (Qle_ceiling q) as Hle. pose proof (Qceiling_lt q) as Hlt.
    split.
    + intros H.
      assert (inject_Z layer < inject_Z (Qceiling q))%Q as H'
        by (eapply Qlt_le_trans; eauto).
      rewrite <-Zlt_Qlt in H'. lia.
    + intros H.
      assert (layer ≤ Qceiling q - 1) as H' by lia.
      rewrite Zle_Qle in H'. eapply Qle_lt_trans; eauto.
  - split; [discriminate|lia].
  - split; [discriminate|lia].
Qed.

Lemma foldr_terms_nonneg (term : Z → Z) (layers : list Z) :
  (∀ layer, 0 ≤ term layer) → 0 ≤ foldr (λ l rest, term l + rest) 0 layers.
Proof.
  intros Hterm. induction layers as [|layer layers IH]; cbn [foldr]; [done|].
  specialize (Hterm layer). lia.
Qed.

(** A loop whose body adds an integer term that is not negative to an
    integer total computes the sum of the terms, as long as the sum stays
    within 2^53. *)
Lemma for_loop_sum (body : Z → number → number) (term : Z → Z) :
  (∀ layer, 0 ≤ term layer) →
  (∀ layer t, 0 ≤ t → t + term layer ≤ 2 ^ 53 →
     body layer (num t) = num (t + term layer)) →
  ∀ (n : nat) (layer t : Z),
    0 ≤ t →
    t + foldr (λ l rest, term l + rest) 0 (seqZ layer (Z.of_nat n)) ≤ 2 ^ 53 →
    for_loop n layer body (num t)
    = num (t + foldr (λ l rest, term l + rest) 0 (seqZ layer (Z.of_nat n))).
Proof.
  intros Hterm Hbody. induction n as [|n IH]; intros layer t Ht Hsum.
  - simpl. f_equal. lia.
  - rewrite seqZ_cons in Hsum |- * by lia. cbn [for_loop foldr] in Hsum |- *.
    replace (Z.pred (Z.of_nat (S n))) with (Z.of_nat n) in Hsum |- * by lia.
    replace (Z.succ layer) with (layer + 1) in Hsum |- * by lia.
    pose proof (foldr_terms_nonneg term (seqZ (layer + 1) (Z.of_nat n)) Hterm).
    specialize (Hterm layer).
    rewrite Hbody, IH by lia. f_equal. lia.
Qed.

(** A sum of [L] terms of at least 1 is at least [L]. *)
Lemma sum_over_layers_ge (L : Z) (term : Z → Z) :
  (∀ layer, 1 ≤ term layer) → L ≤ Spec.sum_over_layers L term.
Proof.
  intros Hterm. unfold Spec.sum_over_layers.
  assert (Z.of_nat (length (seqZ 0 L)) ≤ foldr (λ l rest, term l + rest) 0 (seqZ 0 L))
    as Hlen.
  { induction (seqZ 0 L) as [|layer layers IH]; cbn [foldr length]; [done|].
    specialize (Hterm layer). lia. }
  rewrite length_seqZ in Hlen. lia.
Qed.

Lemma seqZ_to_nat (L : Z) : seqZ 0 (Z.of_nat (Z.to_nat L)) = seqZ 0 L.
Proof.
  destruct (decide (0 ≤ L)).
  - by rewrite Z2Nat.id.
  - rewrite Z2Nat.nonpos by lia. unfold seqZ. by rewrite (Z2Nat.nonpos L) by lia.
Qed.

(** The terms of the recurrent counts. *)
Lemma layer_parameters_pos (gates I H : Z) (b : bool) (layer : Z) :
  1 ≤ gates → 1 ≤ I → 1 ≤ H →
  1 ≤ Spec.layer_parameters gates I H (Spec.dir b) layer.
Proof.
  intros. unfold Spec.layer_parameters, Spec.layer_input_dim, Spec.dir.
  destruct b, (bool_decide (layer = 0)); nia.
Qed.

(** The parameter count of a recurrent layer with integer fields, when
    it is at most 2^53. *)
Lemma recurrent_calculate_sum (gates : Z) (params : gmap string value)
    (I H L : Z) (b : bool) :
  params !! "input_size" = Some (VNum (num I)) →
  params !! "hidden_size" = Some (VNum (num H)) →
  params !! "num_layers" = Some (VNum (num L)) →
  params !! "bidirectional" = Some (VBool b) →
  1 ≤ gates → 1 ≤ I → 1 ≤ H →
  Spec.sum_over_layers L (Spec.layer_parameters gates I H (Spec.dir b)) ≤ 2 ^ 53 →
  recurrent_calculate gates params
  = Some (num (Spec.sum_over_layers L
                 (Spec.layer_parameters gates I H (Spec.dir b)))).
Proof.
  intros HI HH HL Hb Hg HI1 HH1 Hsum. unfold recurrent_calculate.
  pose proof (sum_over_layers_ge L _
                (λ layer, layer_parameters_pos gates I H b layer Hg HI1 HH1)).
  rewrite (field_num _ _ _ HL), loop_count_num by lia. simpl. f_equal.
  unfold Spec.sum_over_layers in *.
  rewrite (for_loop_sum _ (Spec.layer_parameters gates I H (Spec.dir b))).
  - by rewrite seqZ_to_nat.
  - intros layer. pose proof (layer_parameters_pos gates I H b layer). lia.
  - intros layer t Ht. unfold input_dim, direction, Spec.layer_parameters,
      Spec.layer_input_dim, Spec.dir.
    read_fields. destruct b, (bool_decide (layer = 0)); read_fields; intros Hb'.
    all: assert (0 ≤ I * H ≤ gates * (I * H)) by nia.
    all: assert (0 ≤ H * H ≤ gates * (H * H)) by nia.
    all: assert (0 ≤ H ≤ gates * H) by nia.
    all: js_exact; f_equal; lia.
  - done.
  - by rewrite seqZ_to_nat.
Qed.

(** Beyond 2^53 the code rounds: with 100000001 inputs and 100000003
    hidden units it returns 80000004800000064 parameters, eight less
    than the sum. *)
Lemma lstm_calculate_rounded :
  lstm.calculate
    {[ "input_size" := VNum (num 100000001); "hidden_size" := VNum (num 100000003);
       "num_layers" := VNum (num 1); "bidirectional" := VBool false ]}
  = Some (num 80000004800000064) ∧
  Spec.sum_over_layers 1 (Spec.layer_parameters 4 100000001 100000003 1)
  = 80000004800000072.
Proof. split; [closed_number|reflexivity]. Qed.

(** With more than 2^53 layers the loop never ends. *)
Lemma lstm_calculate_endless (params : gmap string value) (L : Z) :
  params !! "num_layers" = Some (VNum (num L)) → 2 ^ 53 < L →
  lstm.calculate params = None.
Proof.
  intros HL Hlarge. unfold lstm.calculate, recurrent_calculate.
  by rewrite (field_num _ _ _ HL), loop_count_beyond.
Qed.

(** C2. An LSTM with input size [I], hidden size [H], [L] layers and
    [dir] directions has as many parameters as the sum, over the layers
    [0 .. L-1], of [dir * 4 * (input_dim * H + H^2 + 2 H)], where
    [input_dim] is [I] for layer 0 and [H * dir] for the later layers; the
    call returns.  The sizes are positive integers and the sum is at most
    2^53, so that every count is an exact double.  For 128 inputs, 256
    hidden units, one layer and one direction the count is 395264. *)
Theorem lstm_calculate_spec :
  (∀ (params : gmap string value) (I H L : Z) (b : bool),
     params !! "input_size" = Some (VNum (num I)) →
     params !! "hidden_size" = Some (VNum (num H)) →
     params !! "num_layers" = Some (VNum (num L)) →
     params !! "bidirectional" = Some (VBool b) →
     1 ≤ I → 1 ≤ H →
     Spec.sum_over_layers L (λ layer,
       Spec.dir b * 4
       * (Spec.layer_input_dim I H (Spec.dir b) layer * H + H ^ 2 + 2 * H))
     ≤ 2 ^ 53 →
     lstm.calculate params
     = Some (num (Spec.sum_over_layers L (λ layer,
                    Spec.dir b * 4
                    * (Spec.layer_input_dim I H (Spec.dir b) layer * H
                       + H ^ 2 + 2 * H))))) ∧
  lstm.calculate recurrent_128_256 = Some (num 395264).
Proof.
  split.
  - intros params I H L b HI HH HL Hb HI1 HH1 Hsum.
    by apply (recurrent_calculate_sum 4 params I H L b HI HH HL Hb).
  - unfold lstm.calculate.
    by rewrite (recurrent_calculate_sum 4 recurrent_128_256 128 256 1 false).
Qed.

Lemma lstm_calculate_spec_witness :
  lstm.calculate recurrent_stacked = Some (num 2367488).
Proof.
  destruct lstm_calculate_spec as [G _].
  rewrite (G recurrent_stacked 128 256 2 true); (reflexivity || lia || idtac).
  vm_compute. discriminate.
Defined.

(** Three LSTM parameters go with four GRU parameters, layer by layer. *)
Lemma gru_lstm_sums (I H d L : Z) :
  4 * Spec.sum_over_layers L (Spec.layer_parameters 3 I H d)
  = 3 * Spec.sum_over_layers L (Spec.layer_parameters 4 I H d).
Proof.
  unfold Spec.sum_over_layers. generalize (seqZ 0 L) as layers.
  induction layers as [|layer layers IH]; [done|]. cbn [foldr].
  unfold Spec.layer_parameters at 1 3. lia.
Qed.

(** For any number of layers, four GRU parameters go with three LSTM
    parameters. *)
Lemma gru_lstm_ratio (params : gmap string value) (I H L : Z) (b : bool) :
  params !! "input_size" = Some (VNum (num I)) →
  params !! "hidden_size" = Some (VNum (num H)) →
  params !! "num_layers" = Some (VNum (num L)) →
  params !! "bidirectional" = Some (VBool b) →
  1 ≤ I → 1 ≤ H →
  Spec.sum_over_layers L (Spec.layer_parameters 4 I H (Spec.dir b)) ≤ 2 ^ 53 →
  ∃ g l : Z,
    gru.calculate params = Some (num g) ∧
    lstm.calculate params = Some (num l) ∧
    4 * g = 3 * l ∧ 0 ≤ l ≤ 2 ^ 53.
Proof.
  intros HI HH HL Hb HI1 HH1 Hsum.
  pose proof (gru_lstm_sums I H (Spec.dir b) L) as Hgl.
  assert (0 ≤ Spec.sum_over_layers L (Spec.layer_parameters 4 I H (Spec.dir b))).
  { apply foldr_terms_nonneg. intros layer.
    pose proof (layer_parameters_pos 4 I H b layer). lia. }
  eexists _, _. split; [|split; [|split]].
  - apply (recurrent_calculate_sum 3 params I H L b HI HH HL Hb); lia.
  - apply (recurrent_calculate_sum 4 params I H L b HI HH HL Hb); lia.
  - done.
  - lia.
Qed.

(** 0.75 is a double. *)
Lemma double_three_quarters : double (Fin (Q2Qc (3 # 4))) = Fin (Q2Qc (3 # 4)).
Proof.
  apply round_double.
  - exists 3, (-2). split; [by apply Qc_is_canon|lia].
  - split; by vm_compute.
Qed.

(** Three quarters of an integer, as a number. *)
Lemma three_quarters (g l : Z) :
  4 * g = 3 * l → 0 ≤ l ≤ 2 ^ 53 → num g = (Fin (Q2Qc (3 # 4)) * num l)%js.
Proof.
  intros Hgl Hl. unfold mul. rewrite double_three_quarters, double_num by lia.
  unfold num at 2.
  replace (Q2Qc (3 # 4) * Qc_of_Z l)%Qc with (Qc_of_Z g).
  - symmetry. apply round_Z. lia.
  - apply Qc_is_canon. simpl. rewrite Qred_correct. unfold Qeq, Qmult. simpl. lia.
Qed.

(** The LSTM count overflows for 2^511 hidden units, the GRU count does
    not: the former is [Infinity], and so are three quarters of it. *)
Lemma gru_lstm_overflow :
  let params : gmap string value :=
    {[ "input_size" := VNum (num 1); "hidden_size" := VNum (num (2 ^ 511));
       "num_layers" := VNum (num 1); "bidirectional" := VBool false ]} in
  lstm.calculate params = Some PosInf ∧
  gru.calculate params = Some (num (3 * 2 ^ 1022)) ∧
  (Fin (Q2Qc (3 # 4)) * PosInf)%js = PosInf.
Proof. split; [by vm_compute|]. split; [closed_number|by vm_compute]. Qed.

(** C3. With one layer, and the same input size, hidden size and
    bidirectional flag, the GRU parameter count is exactly 0.75 times the
    LSTM parameter count; the sizes are positive integers with an LSTM
    count of at most 2^53, so that every count is an exact double. *)
Theorem gru_three_quarters_of_lstm (params : gmap string value) (I H : Z) (b : bool) :
  params !! "input_size" = Some (VNum (num I)) →
  params !! "hidden_size" = Some (VNum (num H)) →
  params !! "num_layers" = Some (VNum (num 1)) →
  params !! "bidirectional" = Some (VBool b) →
  1 ≤ I → 1 ≤ H →
  Spec.dir b * 4 * (I * H + H ^ 2 + 2 * H) ≤ 2 ^ 53 →
  ∃ g l : number,
    gru.calculate params = Some g ∧
    lstm.calculate params = Some l ∧
    g = (Fin (Q2Qc (3 # 4)) * l)%js.
Proof.
  intros HI HH HL Hb HI1 HH1 Hbound.
  destruct (gru_lstm_ratio params I H 1 b HI HH HL Hb HI1 HH1)
    as (g & l & Hg & Hl & Hgl & Hl').
  { unfold Spec.sum_over_layers, Spec.layer_parameters, Spec.layer_input_dim.
    simpl. lia. }
  exists (num g), (num l). by auto using three_quarters.
Qed.

Lemma gru_three_quarters_of_lstm_witness :
  ∃ g l : number,
    gru.calculate recurrent_128_256 = Some g ∧
    lstm.calculate recurrent_128_256 = Some l ∧
    g = (Fin (Q2Qc (3 # 4)) * l)%js.
Proof.
  apply (gru_three_quarters_of_lstm recurrent_128_256 128 256 false);
    (reflexivity || lia || idtac).
  vm_compute. discriminate.
Defined.

(** ** The memory estimator *)

Lemma mul_comm (a b : number) : (a * b)%js = (b * a)%js.
Proof.
  unfold mul. destruct (double a) as [x| | |], (double b) as [y| | |];
    try reflexivity.
  by rewrite Qcmult_comm.
Qed.

(** C4. For every total parameter count and every precision key, the
    training estimate is exactly 4 times the inference estimate: the
    inference estimate is [totalParams * bytes], the training estimate
    [totalParams * bytes * 4]. *)
Theorem calculateMemory_training_inference (totalParams : number)
    (precision : option string) :
  let bytes := property_number (bytes (default_string precision "fp32")) in
  calculateMemory totalParams (Some "inference"%string) precision
  = (totalParams * bytes)%js ∧
  calculateMemory totalParams (Some "training"%string) precision
  = (totalParams * bytes * num 4)%js ∧
  calculateMemory totalParams (Some "training"%string) precision
  = (num 4 * calculateMemory totalParams (Some "inference"%string) precision)%js.
Proof.
  unfold calculateMemory. simpl. repeat split. apply mul_comm.
Qed.

(** C10. Every mode other than ['inference'], and not only ['training'],
    gets the training formula [totalParams * bytes * 4]. *)
Theorem calculateMemory_other_mode (totalParams : number) (mode : string)
    (precision : option string) :
  mode ≠ "inference"%string →
  calculateMemory totalParams (Some mode) precision
  = (totalParams * property_number (bytes (default_string precision "fp32"))
     * num 4)%js ∧
  calculateMemory totalParams (Some mode) precision
  = calculateMemory totalParams (Some "training"%string) precision.
Proof.
  intros Hmode. unfold calculateMemory. simpl.
  by rewrite bool_decide_eq_false_2.
Qed.

Lemma calculateMemory_other_mode_witness :
  calculateMemory (num 1000000) (Some "eval"%string) (Some "fp16"%string)
  = (num 1000000 * property_number (bytes "fp16") * num 4)%js ∧
  calculateMemory (num 1000000) (Some "eval"%string) (Some "fp16"%string)
  = calculateMemory (num 1000000) (Some "training"%string) (Some "fp16"%string).
Proof.
  apply (calculateMemory_other_mode (num 1000000) "eval" (Some "fp16"%string)).
  discriminate.
Defined.

(** The bytes of the four precisions of the table. *)
Lemma bytes_table :
  bytes "fp32" = Own (num 4) ∧ bytes "fp16" = Own (num 2) ∧
  bytes "bf16" = Own (num 2) ∧ bytes "int8" = Own (num 1).
Proof. repeat split; vm_compute; repeat f_equal. Qed.

(** A precision that is neither a key of the table nor a member of
    [Object.prototype] gets 4 bytes. *)
Lemma bytes_fallback (precision : string) :
  bytesPerParam !! precision = None →
  precision ∉ Object_prototype →
  bytes precision = Own (num 4).
Proof.
  intros Htable Hproto. unfold bytes, get. rewrite Htable.
  by rewrite bool_decide_eq_false_2.
Qed.

Lemma calculateMemory_tf32 :
  calculateMemory (num 1000000) (Some "inference"%string) (Some "tf32"%string)
  = num 4000000.
Proof.
  unfold calculateMemory. simpl. rewrite bytes_fallback; [|done|].
  - simpl. by js_exact.
  - by apply (bool_decide_eq_false_1 ("tf32"%string ∈ Object_prototype)).
Qed.

(** A member of [Object.prototype] is found where the table has no entry;
    it is truthy, so the fallback is not taken, and it is no number. *)
Lemma bytes_inherited (precision : string) :
  precision ∈ Object_prototype →
  bytes precision = Inherited precision.
Proof.
  intros Hproto. unfold bytes, get.
  assert (bytesPerParam !! precision = None) as ->.
  { unfold Object_prototype in Hproto. set_unfold in Hproto.
    destruct_or!; subst; reflexivity. }
  by rewrite bool_decide_eq_true_2.
Qed.

(** C5, at the precision ['constructor']: the key is not in the table,
    yet the estimate for a million parameters is NaN, not the 4000000 of
    the 4-byte fallback. *)
Theorem calculateMemory_constructor :
  bytesPerParam !! "constructor"%string = None ∧
  calculateMemory (num 1000000) (Some "inference"%string)
    (Some "constructor"%string) = NaN ∧
  calculateMemory (num 1000000) (Some "inference"%string)
    (Some "constructor"%string) ≠ num 4000000.
Proof.
  assert (calculateMemory (num 1000000) (Some "inference"%string)
            (Some "constructor"%string) = NaN) as ->.
  { unfold calculateMemory. simpl. rewrite bytes_inherited; [done|].
    by apply (bool_decide_eq_true_1 ("constructor"%string ∈ Object_prototype)). }
  done.
Qed.

(** ** Editing a configuration field *)

(** On a finite number, [Math.max(1, Math.floor(x))] is the integer
    [max 1 ⌊x⌋]. *)
Lemma max_1_floor (q : Qc) :
  Math_max (num 1) (Math_floor (Fin q)) = num (Z.max 1 (Qfloor q)).
Proof.
  unfold Math_floor, Math_max, num. case_decide as Hlt.
  - apply Z2Qc_inj_lt in Hlt. by rewrite Z.max_r by lia.
  - rewrite <-Z2Qc_inj_lt in Hlt. by rewrite Z.max_l by lia.
Qed.

(** C8. [updateLayerParam(id, paramKey, value)] with a numeric [value]
    stores [Math.max(1, Math.floor(value))] under [paramKey] in the layers
    of that id, or [value] itself when the key is ['rate']; for a finite
    value the former is the integer [max 1 ⌊value⌋].  The other fields of
    these layers, their id and type, the other layers, and the order and
    number of the layers stay as they were. *)
Theorem updateLayerParam_spec (id0 : number) (paramKey : string) (n : number)
    (prev : list Layer) :
  let next := updateLayerParam id0 paramKey (VNum n) prev in
  let stored :=
    if bool_decide (paramKey = "rate"%string) then n
    else Math_max (num 1) (Math_floor n) in
  length next = length prev ∧
  (∀ (i : nat) (layer : Layer),
     prev !! i = Some layer → strict_eq (id layer) id0 = true →
     ∃ layer', next !! i = Some layer' ∧
       id layer' = id layer ∧ type layer' = type layer ∧
       params layer' !! paramKey = Some (VNum stored) ∧
       ∀ k, k ≠ paramKey → params layer' !! k = params layer !! k) ∧
  (∀ (i : nat) (layer : Layer),
     prev !! i = Some layer → strict_eq (id layer) id0 = false →
     next !! i = Some layer) ∧
  (∀ q : Qc, n = Fin q → paramKey ≠ "rate"%string →
     stored = num (Z.max 1 (Qfloor q))).
Proof.
  intros next stored. subst next. unfold updateLayerParam.
  split; [by rewrite length_fmap|]. split; [|split].
  - intros i layer Hi Hid. rewrite list_lookup_fmap, Hi. simpl.
    rewrite Hid. simpl. eexists. split; [done|]. simpl.
    repeat split.
    + rewrite lookup_insert_eq. f_equal. subst stored.
      unfold validatedValue. simpl.
      by destruct (decide (paramKey = "rate"%string));
        [rewrite bool_decide_eq_false_2, bool_decide_eq_true_2 by auto
        |rewrite bool_decide_eq_true_2, bool_decide_eq_false_2 by auto].
    + intros k Hk. by rewrite lookup_insert_ne.
  - intros i layer Hi Hid. rewrite list_lookup_fmap, Hi. simpl.
    by rewrite Hid.
  - intros q -> Hkey. subst stored.
    rewrite bool_decide_eq_false_2 by done. by rewrite max_1_floor.
Qed.

Lemma updateLayerParam_spec_witness :
  ∃ layer',
    updateLayerParam (num 1) "output_dim" (VNum (Fin (Q2Qc (37 # 10))))
      linear_dropout !! 0%nat = Some layer' ∧
    params layer' !! "output_dim" = Some (VNum (num 3)) ∧
    params layer' !! "input_dim" = Some (VNum (num 512)) ∧
    updateLayerParam (num 1) "output_dim" (VNum (Fin (Q2Qc (37 # 10))))
      linear_dropout !! 1%nat = linear_dropout !! 1%nat.
Proof.
  destruct (updateLayerParam_spec (num 1) "output_dim" (Fin (Q2Qc (37 # 10)))
              linear_dropout) as (_ & Hsame & Hother & Hfinite).
  destruct (Hsame 0%nat _ eq_refl eq_refl) as (layer' & H0 & _ & _ & Hkey & Hrest).
  exists layer'. split; [exact H0|]. split; [|split].
  - rewrite Hkey. rewrite (Hfinite _ eq_refl); [reflexivity|discriminate].
  - rewrite Hrest; [reflexivity|discriminate].
  - apply (Hother 1%nat _ eq_refl eq_refl).
Defined.

(** ** The layer distribution *)

Lemma foldl_reducer_None (f : Layer → option number) (modelLayers : list Layer) :
  foldl (reducer f) None modelLayers = None.
Proof. induction modelLayers as [|layer ls IH]; [done|]. exact IH. Qed.

(** A reduction that returns has called [f] on every layer, and every
    call has returned. *)
Lemma foldl_reducer_Some (f : Layer → option number) (modelLayers : list Layer)
    (acc : option number) (T : number) :
  foldl (reducer f) acc modelLayers = Some T →
  Forall (λ layer, is_Some (f layer)) modelLayers.
Proof.
  revert acc. induction modelLayers as [|layer ls IH]; intros acc Hfold; [done|].
  cbn [foldl] in Hfold. constructor; [|by eapply IH].
  destruct (f layer) as [c|] eqn:Hc; [done|].
  unfold reducer at 2 in Hfold. rewrite Hc in Hfold.
  destruct acc; simpl in Hfold; by rewrite foldl_reducer_None in Hfold.
Qed.

(** The share of [pz] parameters in a total of [tz], as the code
    computes it: the quotient is rounded, and so is its product by 100,
    so the result is [100 * pz / tz] up to a relative error of 2^-51. *)
Lemma percentage_accuracy (pz tz : Z) :
  0 ≤ pz ≤ tz → 0 < tz ≤ 2 ^ 53 →
  ∃ x : Qc,
    (num pz / num tz * num 100)%js = Fin x ∧
    let share := (Qc_of_Z 100 * Qc_of_Z pz / Qc_of_Z tz)%Qc in
    (share - share * pow2 (-51) ≤ x ≤ share + share * pow2 (-51))%Qc.
Proof.
  intros Hp Ht.
  assert (0 < Qc_of_Z tz)%Qc as Htz by (apply Z2Qc_pos; lia).
  assert (Qc_of_Z tz ≠ 0%Qc) as Hne by (intros E; rewrite E in Htz; by apply Qclt_not_eq in Htz).
  unfold div. rewrite !double_num by lia. unfold num at 1 2.
  rewrite decide_False by done.
  destruct (decide (pz = 0)) as [->|Hpz].
  { exists 0%Qc. split.
    - rewrite Z2Qc_inj_0. unfold Qcdiv. rewrite Qcmult_0_l.
      unfold mul, round at 1. rewrite decide_True by done.
      change (double (Fin 0)) with (round 0). unfold round at 1.
      rewrite decide_True by done. rewrite double_num by lia.
      unfold num. rewrite Qcmult_0_l. unfold round. by rewrite decide_True.
    - cbv zeta. rewrite Z2Qc_inj_0. unfold Qcdiv.
      rewrite Qcmult_0_r, !Qcmult_0_l. split; by vm_compute. }
  set (q := (Qc_of_Z pz / Qc_of_Z tz)%Qc).
  assert (pow2 (-53) ≤ q ≤ 1)%Qc as [Hq1 Hq2].
  { unfold q. split.
    - apply (Qcmult_le_mono_pos_r _ _ (Qc_of_Z tz * pow2 53)).
      { apply Qcmult_pos_pos; [done|apply pow2_pos]. }
      transitivity (Qc_of_Z tz); [apply Qcle_eq|].
      { rewrite (Qcmult_comm (Qc_of_Z tz)), Qcmult_assoc, <-pow2_add.
        change (-53 + 53) with 0. by rewrite pow2_0, Qcmult_1_l. }
      unfold Qcdiv. rewrite Qcmult_assoc, <-(Qcmult_assoc (Qc_of_Z pz)).
      rewrite Qcmult_inv_l, Qcmult_1_r by done.
      rewrite pow2_nonneg, <-Z2Qc_inj_mul, <-Z2Qc_inj_le by lia. nia.
    - apply (Qcmult_le_mono_pos_r _ _ (Qc_of_Z tz)); [done|].
      unfold Qcdiv. rewrite <-Qcmult_assoc, Qcmult_inv_l, Qcmult_1_r, Qcmult_1_l by done.
      rewrite <-Z2Qc_inj_le. lia. }
  assert (pow2 (-1022) ≤ pow2 (-54))%Qc as Hmin by (apply pow2_le; lia).
  assert (pow2 (-54) ≤ pow2 (-53))%Qc as Hmin' by (apply pow2_le; lia).
  assert (pow2 8 ≤ pow2 1023)%Qc as Hmax by (apply pow2_le; lia).
  assert (pow2 (-53) ≤ Q2Qc (1 # 2))%Qc as He.
  { change (Q2Qc (1 # 2)) with (Qc_of_Z 1 / Qc_of_Z 2)%Qc.
    replace (Qc_of_Z 1 / Qc_of_Z 2)%Qc with (pow2 (-1)) by (by apply Qc_is_canon).
    apply pow2_le. lia. }
  assert (pow2 (-54) = pow2 (-53) * Q2Qc (1 # 2))%Qc as E54.
  { change (-54) with (-53 + -1). rewrite pow2_add. f_equal. }
  assert (pow2 (-51) = pow2 (-53) * Qc_of_Z 4)%Qc as E51.
  { change (-51) with (-53 + 2). rewrite pow2_add. f_equal. }
  assert (pow2 8 = Qc_of_Z 256) as E8 by (by rewrite pow2_nonneg).
  pose proof (pow2_pos (-53)) as He0.
  destruct (round_error q) as (q' & Hq' & Hdq' & Hlo & Hhi).
  { split; [by do 2 (etrans; [|done])|].
    etrans; [done|]. etrans; [|exact Hmax]. rewrite E8.
    rewrite <-Z2Qc_inj_1, <-Z2Qc_inj_le. lia. }
  rewrite Hq'. unfold mul. rewrite <-Hq', double_round, Hq', double_num by lia.
  unfold num.
  destruct (round_error (q' * Qc_of_Z 100)) as (x & Hx & _ & Hxlo & Hxhi).
  { rewrite E54 in Hmin. rewrite E8 in Hmax.
    set (e := pow2 (-53)) in *. set (lo := pow2 (-1022)) in *.
    set (hi := pow2 1023) in *. clearbody e lo hi q. clear Htz Hne.
    split; qc_to_q; cbv [inject_Z] in *; nra. }
  exists x. split; [done|]. cbv zeta.
  replace (Qc_of_Z 100 * Qc_of_Z pz / Qc_of_Z tz)%Qc with (Qc_of_Z 100 * q)%Qc
    by (unfold q, Qcdiv; ring).
  rewrite E51. set (e := pow2 (-53)) in *. clearbody e q. clear Htz Hne.
  split; qc_to_q; cbv [inject_Z] in *; nra.
Qed.

(** A share of 28.75 per cent is computed as 28.749999999999996 and
    shown as 28.7, where [toFixed(1)] of 28.75 itself is 28.8. *)
Lemma percentage_rounded :
  percentageOf (num 5120) (num 1472) = "28.7"%string ∧
  (Qc_of_Z 100 * Qc_of_Z 1472 / Qc_of_Z 5120)%Qc = Q2Qc (2875 # 100) ∧
  toFixed1 (Fin (Q2Qc (2875 # 100))) = "28.8"%string.
Proof. split; [by vm_compute|]. split; [by apply Qc_is_canon|by vm_compute]. Qed.

(** C6. Whenever the total of a model is returned, the layer
    distribution has one row per layer, in the order of the model, each
    with the id of its layer and its position from 1 on.  When the total
    [T] is greater than 0 the row of a layer with [p] parameters shows the
    double [p / T * 100] to one decimal, and otherwise, so for a total of
    0, it shows ["0.0"] and no division is performed.  For integer counts
    up to 2^53 that double is [100 * p / T] up to a relative error of
    2^-51. *)
Theorem layerDistribution_spec (modelLayers : list Layer) (T : number) :
  totalParams modelLayers = Some T →
  ∃ rows : list Row,
    layerDistribution modelLayers = Some rows ∧
    length rows = length modelLayers ∧
    ∀ (i : nat) (layer : Layer), modelLayers !! i = Some layer →
      ∃ p : number,
        layerParams layer = Some p ∧
        rows !! i
        = Some (mkRow (id layer) (Z.of_nat i + 1)
                  (if gt T (num 0) then toFixed1 (p / T * num 100)%js
                   else "0.0")) ∧
        (T = num 0 → option_map percentage (rows !! i) = Some "0.0"%string) ∧
        (∀ pz tz : Z,
           p = num pz → T = num tz → 0 ≤ pz ≤ tz → 0 < tz ≤ 2 ^ 53 →
           ∃ x : Qc,
             (p / T * num 100)%js = Fin x ∧
             let share := (Qc_of_Z 100 * Qc_of_Z pz / Qc_of_Z tz)%Qc in
             (share - share * pow2 (-51) ≤ x ≤ share + share * pow2 (-51))%Qc).
Proof.
  intros HT. pose proof (foldl_reducer_Some _ _ _ _ HT) as Hret.
  rewrite Forall_lookup in Hret.
  unfold layerDistribution. rewrite HT. simpl.
  match goal with |- context [mapM ?g _] => set (f := g) end.
  assert (is_Some (mapM f (imap pair modelLayers))) as [rows Hrows].
  { apply mapM_is_Some, Forall_lookup. intros i [idx layer] Hi.
    rewrite list_lookup_imap in Hi.
    destruct (modelLayers !! i) as [layer'|] eqn:E; simplify_eq/=.
    destruct (Hret _ _ E) as [p Hp]. rewrite Hp. simpl. eauto. }
  exists rows. split; [done|]. apply mapM_Some_1 in Hrows. split.
  { apply Forall2_length in Hrows. by rewrite length_imap in Hrows. }
  intros i layer Hi. destruct (Hret i layer Hi) as [p Hp].
  exists p. split; [done|].
  assert (imap pair modelLayers !! i = Some (i, layer)) as Hpair
    by (by rewrite list_lookup_imap, Hi).
  destruct (Forall2_lookup_l _ _ _ _ _ Hrows Hpair) as (row & Hrow & Hf).
  rewrite Hrow. simpl in Hf. rewrite Hp in Hf. simpl in Hf.
  injection Hf as <-. unfold percentageOf. split; [done|]. split.
  - by intros ->.
  - intros pz tz -> -> Hpz Htz. by apply percentage_accuracy.
Qed.

Lemma layerDistribution_spec_witness :
  ∃ rows : list Row,
    layerDistribution three_layers = Some rows ∧
    length rows = length three_layers ∧
    ∀ (i : nat) (layer : Layer), three_layers !! i = Some layer →
      ∃ p : number,
        layerParams layer = Some p ∧
        rows !! i
        = Some (mkRow (id layer) (Z.of_nat i + 1)
                  (if gt (num 2498816) (num 0)
                   then toFixed1 (p / num 2498816 * num 100)%js
                   else "0.0")) ∧
        (num 2498816 = num 0 → option_map percentage (rows !! i) = Some "0.0"%string) ∧
        (∀ pz tz : Z,
           p = num pz → num 2498816 = num tz → 0 ≤ pz ≤ tz → 0 < tz ≤ 2 ^ 53 →
           ∃ x : Qc,
             (p / num 2498816 * num 100)%js = Fin x ∧
             let share := (Qc_of_Z 100 * Qc_of_Z pz / Qc_of_Z tz)%Qc in
             (share - share * pow2 (-51) ≤ x ≤ share + share * pow2 (-51))%Qc).
Proof.
  apply (layerDistribution_spec three_layers (num 2498816)).
  closed_number.
Defined.

(** The percentages of two models, the second without parameters. *)
Lemma layerDistribution_three_layers :
  option_map (map percentage) (layerDistribution three_layers)
  = Some ["5.3"; "94.7"; "0.0"]%string.
Proof. vm_compute. reflexivity. Qed.

Lemma layerDistribution_activations :
  totalParams activations = Some (num 0) ∧
  option_map (map percentage) (layerDistribution activations)
  = Some ["0.0"; "0.0"]%string.
Proof. split; [closed_number|]. vm_compute. reflexivity. Qed.

(** A model whose total overflows: the share of the layer with
    [Infinity] parameters is [Infinity / Infinity * 100], shown as
    ["NaN"], and the share of every other layer is shown as ["0.0"]. *)
Lemma layerDistribution_infinite_total :
  let model :=
    [ mkLayer (num 1) Embedding
        {[ "vocab_size" := VNum (num (2 ^ 1000));
           "embedding_dim" := VNum (num (2 ^ 30)) ]};
      mkLayer (num 2) Linear linear_512_256 ] in
  totalParams model = Some PosInf ∧
  option_map (map percentage) (layerDistribution model)
  = Some ["NaN"; "0.0"]%string.
Proof. split; by vm_compute. Qed.

(** [toFixed1] prints the integer nearest to ten times a non-negative
    number, the larger one on a tie, with a point before its last digit. *)
Lemma toFixed1_nearest (q : Qc) :
  (0 ≤ q)%Qc →
  ∃ n : Z,
    0 ≤ n ∧
    toFixed1 (Fin q)
    = (pretty (Z.to_N n / 10)%N +:+ "." +:+ pretty (Z.to_N n mod 10)%N)%string ∧
    (Qc_of_Z n ≤ q * Qc_of_Z 10 + Q2Qc (1 # 2))%Qc ∧
    (q * Qc_of_Z 10 + Q2Qc (1 # 2) < Qc_of_Z (n + 1))%Qc.
Proof.
  intros Hq. exists (Qfloor (q * Qc_of_Z 10 + Q2Qc (1 # 2))%Qc).
  assert (¬ (q < 0)%Qc) as Hneg by (by apply Qcle_not_lt).
  repeat split.
  - change 0 with (Qfloor (inject_Z 0)). apply Qfloor_resp_le.
    change (0 ≤ q * Qc_of_Z 10 + Q2Qc (1 # 2))%Qc.
    apply Qcplus_nonneg_nonneg; [|done].
    apply Qcmult_nonneg_nonneg; [done|]. by rewrite <-Z2Qc_inj_0, <-Z2Qc_inj_le.
  - unfold toFixed1. by rewrite !decide_False by done.
  - apply Qfloor_le.
  - apply Qlt_floor.
Qed.

(** ** The grouping pass *)

Lemma scan_runs (layers : list Layer) :
  ∀ (current : Group) (run : list Layer),
    stands_for current run →
    ∃ runs : list (list Layer),
      concat runs = run ++ layers ∧
      Forall2 stands_for (scan current layers) runs.
Proof.
  induction layers as [|layer rest IH]; intros current run Hrun.
  - exists [run]. split; [simpl; by rewrite !app_nil_r|].
    simpl. constructor; [done|constructor].
  - cbn [scan]. destruct (continues current layer) eqn:Hcont.
    + apply andb_prop in Hcont as [Hkind%bool_decide_eq_true_1
                                     Hconf%bool_decide_eq_true_1].
      destruct Hrun as (Hne & Hcount & Hmem & Hall).
      destruct (IH (extend current layer) (run ++ [layer])) as (runs & Hcat & Hruns).
      { repeat split; simpl.
        - by destruct run.
        - rewrite length_app, Hcount. simpl. lia.
        - by rewrite fmap_app, Hmem.
        - apply Forall_app. split; [done|]. by repeat constructor. }
      exists runs. split; [|done]. by rewrite Hcat, <-app_assoc.
    + destruct (IH (open_group layer) [layer]) as (runs & Hcat & Hruns).
      { repeat split; simpl; [done|]. by repeat constructor. }
      exists (run :: runs). split; [simpl; by rewrite Hcat|]. by constructor.
Qed.

(** C9. The groups of a sequence of layers stand for consecutive runs
    that make up the sequence, and all members of a run have the kind tag
    and the configuration of their group: layers of the same kind whose
    configurations differ are never in one group. *)
Theorem group_never_merges_distinct (layers : list Layer) :
  ∃ runs : list (list Layer),
    concat runs = layers ∧
    Forall2 stands_for (group layers) runs ∧
    Forall (λ run,
      Forall (λ l1, Forall (λ l2,
        type l1 = type l2 ∧ params l1 = params l2) run) run) runs.
Proof.
  assert (∃ runs, concat runs = layers ∧ Forall2 stands_for (group layers) runs)
    as (runs & Hcat & Hruns).
  { destruct layers as [|layer rest]; [by exists []; repeat constructor|].
    apply (scan_runs rest (open_group layer) [layer]).
    repeat split; simpl; [done|]. by repeat constructor. }
  exists runs. repeat split; [done..|].
  apply Forall_forall. intros run Hin.
  apply list_elem_of_lookup in Hin as [i Hi].
  destruct (Forall2_lookup_r _ _ _ _ _ Hruns Hi) as (g & _ & _ & _ & _ & Hall).
  rewrite Forall_forall in Hall.
  apply Forall_forall. intros l1 H1. apply Forall_forall. intros l2 H2.
  destruct (Hall l1 H1) as [-> ->], (Hall l2 H2) as [-> ->]. done.
Qed.

(** Of six layers, the two Linear layers with 128 outputs form a group
    of their own, apart from the one with 256 outputs. *)
Lemma group_six_layers :
  (λ g, (kind g, count g)) <$> group six_layers
  = [(Relu, 2%nat); (Linear, 1%nat); (Linear, 2%nat); (Relu, 1%nat)].
Proof. vm_compute. reflexivity. Qed.

(** * Further properties of the registry *)

(** ** Closed forms of the recurrent layers *)

(** The sum of one term over the layers [layer .. layer + n - 1]. *)
Lemma foldr_seqZ_const (term : Z → Z) (c : Z) (n : nat) :
  ∀ layer : Z,
    (∀ l, layer ≤ l → term l = c) →
    foldr (λ l rest, term l + rest) 0 (seqZ layer (Z.of_nat n)) = Z.of_nat n * c.
Proof.
  induction n as [|n IH]; intros layer Hterm; [done|].
  rewrite seqZ_cons by lia. cbn [foldr].
  replace (Z.pred (Z.of_nat (S n))) with (Z.of_nat n) by lia.
  rewrite IH by (intros l Hl; apply Hterm; lia).
  rewrite Hterm by lia. rewrite Nat2Z.inj_succ. ring.
Qed.

Lemma sum_over_layers_closed (gates I H d L : Z) :
  1 ≤ L →
  Spec.sum_over_layers L (Spec.layer_parameters gates I H d)
  = d * gates * (I * H + H ^ 2 + 2 * H)
    + (L - 1) * (d * gates * (H * d * H + H ^ 2 + 2 * H)).
Proof.
  intros HL. unfold Spec.sum_over_layers.
  rewrite seqZ_cons by lia. cbn [foldr].
  replace (Z.pred L) with (Z.of_nat (Z.to_nat (L - 1))) by lia.
  rewrite (foldr_seqZ_const _ (d * gates * (H * d * H + H ^ 2 + 2 * H))).
  - unfold Spec.layer_parameters at 1, Spec.layer_input_dim.
    rewrite bool_decide_eq_true_2 by done. rewrite Z2Nat.id by lia. ring.
  - intros l Hl. unfold Spec.layer_parameters, Spec.layer_input_dim.
    rewrite bool_decide_eq_false_2 by lia. done.
Qed.

(** The GRU count is at most the LSTM count. *)
Lemma gru_le_lstm (I H L : Z) (b : bool) :
  1 ≤ I → 1 ≤ H →
  Spec.sum_over_layers L (Spec.layer_parameters 3 I H (Spec.dir b))
  ≤ Spec.sum_over_layers L (Spec.layer_parameters 4 I H (Spec.dir b)).
Proof.
  intros HI HH. pose proof (gru_lstm_sums I H (Spec.dir b) L).
  assert (0 ≤ Spec.sum_over_layers L (Spec.layer_parameters 4 I H (Spec.dir b))).
  { apply foldr_terms_nonneg. intros layer.
    pose proof (layer_parameters_pos 4 I H b layer). lia. }
  lia.
Qed.

(** The recurrent parameter loops in closed form: the first layer reads
    the input, each of the [L - 1] later layers reads the [dir * H]
    outputs of the layer before it.  Without a layer the count is 0.  The
    sizes are positive integers and the LSTM count is at most 2^53. *)
Theorem recurrent_calculate_closed_form (params : gmap string value)
    (I H L : Z) (b : bool) :
  params !! "input_size" = Some (VNum (num I)) →
  params !! "hidden_size" = Some (VNum (num H)) →
  params !! "num_layers" = Some (VNum (num L)) →
  params !! "bidirectional" = Some (VBool b) →
  1 ≤ I → 1 ≤ H →
  let d := Spec.dir b in
  let count (gates : Z) :=
    if bool_decide (1 ≤ L)
    then d * gates * (I * H + H ^ 2 + 2 * H)
         + (L - 1) * (d * gates * (d * H ^ 2 + H ^ 2 + 2 * H))
    else 0 in
  count 4 ≤ 2 ^ 53 →
  lstm.calculate params = Some (num (count 4)) ∧
  gru.calculate params = Some (num (count 3)).
Proof.
  intros HI HH HL Hb HI1 HH1 d count Hbound.
  assert (∀ gates, Spec.sum_over_layers L (Spec.layer_parameters gates I H d)
                   = count gates) as Hcount.
  { intros gates. subst count. simpl. case_bool_decide as HL1.
    - rewrite sum_over_layers_closed by done. fold d. ring.
    - unfold Spec.sum_over_layers, seqZ. by rewrite Z2Nat.nonpos by lia. }
  pose proof (gru_le_lstm I H L b HI1 HH1) as Hle. fold d in Hle.
  pose proof (Hcount 4) as H4. pose proof (Hcount 3) as H3.
  unfold lstm.calculate, gru.calculate. subst d.
  rewrite (recurrent_calculate_sum 4 params I H L b) by (done || lia).
  rewrite (recurrent_calculate_sum 3 params I H L b) by (done || lia).
  by rewrite H3, H4.
Qed.

Lemma recurrent_calculate_closed_form_witness :
  lstm.calculate recurrent_stacked = Some (num 2367488) ∧
  gru.calculate recurrent_stacked = Some (num 1775616).
Proof.
  apply (recurrent_calculate_closed_form recurrent_stacked 128 256 2 true);
    (reflexivity || lia || idtac).
  vm_compute. discriminate.
Defined.

(** ** FLOPs of the recurrent layers *)

Lemma layer_flops_pos (gates I H s : Z) (b : bool) (layer : Z) :
  1 ≤ gates → 1 ≤ I → 1 ≤ H → 1 ≤ s →
  1 ≤ Spec.layer_flops gates I H (Spec.dir b) s layer.
Proof.
  intros. unfold Spec.layer_flops, Spec.layer_input_dim, Spec.dir.
  destruct b, (bool_decide (layer = 0)); nia.
Qed.

(** The FLOPs loop on integer fields and an integer sequence length,
    when the FLOPs are at most 2^53. *)
Lemma recurrent_calculateFLOPs_sum (gates : Z) (params : gmap string value)
    (I H L s : Z) (b : bool) (seqLen : option number) :
  params !! "input_size" = Some (VNum (num I)) →
  params !! "hidden_size" = Some (VNum (num H)) →
  params !! "num_layers" = Some (VNum (num L)) →
  params !! "bidirectional" = Some (VBool b) →
  default seqLen 128 = num s →
  1 ≤ gates → 1 ≤ I → 1 ≤ H → 1 ≤ s →
  Spec.sum_over_layers L (Spec.layer_flops gates I H (Spec.dir b) s) ≤ 2 ^ 53 →
  recurrent_calculateFLOPs gates params seqLen
  = Some (num (Spec.sum_over_layers L (Spec.layer_flops gates I H (Spec.dir b) s))).
Proof.
  intros HI HH HL Hb Hs Hg HI1 HH1 Hs1 Hsum. unfold recurrent_calculateFLOPs.
  rewrite Hs.
  pose proof (sum_over_layers_ge L _
                (λ layer, layer_flops_pos gates I H s b layer Hg HI1 HH1 Hs1)).
  rewrite (field_num _ _ _ HL), loop_count_num by lia. simpl. f_equal.
  unfold Spec.sum_over_layers in *.
  rewrite (for_loop_sum _ (Spec.layer_flops gates I H (Spec.dir b) s)).
  - by rewrite seqZ_to_nat.
  - intros layer. pose proof (layer_flops_pos gates I H s b layer). lia.
  - intros layer t Ht. unfold input_dim, direction, Spec.layer_flops,
      Spec.layer_input_dim, Spec.dir.
    read_fields. destruct b, (bool_decide (layer = 0)); read_fields; intros Hb'.
    all: assert (0 ≤ I * H ≤ gates * (I * H)) by nia.
    all: assert (0 ≤ H * H ≤ gates * (H * H)) by nia.
    all: assert (gates * (I * H) ≤ gates * (I * H) * s) by nia.
    all: assert (gates * (H * H) ≤ gates * (H * H) * s) by nia.
    all: assert (H ≤ H * H) by nia.
    all: js_exact; f_equal; lia.
  - done.
  - by rewrite seqZ_to_nat.
Qed.

(** A sum whose terms are all multiplied by [k]. *)
Lemma sum_over_layers_scale (L k : Z) (f g : Z → Z) :
  (∀ layer, g layer = k * f layer) →
  Spec.sum_over_layers L g = k * Spec.sum_over_layers L f.
Proof.
  intros Hfg. unfold Spec.sum_over_layers. generalize (seqZ 0 L) as layers.
  induction layers as [|layer layers IH]; cbn [foldr]; [lia|].
  rewrite IH, Hfg. ring.
Qed.

Lemma layer_flops_sum_nonneg (gates I H s L : Z) (b : bool) :
  1 ≤ gates → 1 ≤ I → 1 ≤ H → 1 ≤ s →
  0 ≤ Spec.sum_over_layers L (Spec.layer_flops gates I H (Spec.dir b) s).
Proof.
  intros. apply foldr_terms_nonneg. intros layer.
  pose proof (layer_flops_pos gates I H s b layer). lia.
Qed.

(** The FLOPs of an LSTM or GRU grow linearly with the sequence length:
    [k] times the length costs [k] times the FLOPs; and an omitted
    length counts as 128.  Sizes, length and [k] are positive integers,
    and the FLOPs at a length of [k * s] are at most 2^53. *)
Theorem recurrent_flops_linear_in_seqLen (gates : Z) (params : gmap string value)
    (I H L s k : Z) (b : bool) :
  params !! "input_size" = Some (VNum (num I)) →
  params !! "hidden_size" = Some (VNum (num H)) →
  params !! "num_layers" = Some (VNum (num L)) →
  params !! "bidirectional" = Some (VBool b) →
  1 ≤ gates → 1 ≤ I → 1 ≤ H → 1 ≤ s → 1 ≤ k →
  Spec.sum_over_layers L (Spec.layer_flops gates I H (Spec.dir b) (k * s)) ≤ 2 ^ 53 →
  ∃ f : Z,
    recurrent_calculateFLOPs gates params (Some (num s)) = Some (num f) ∧
    recurrent_calculateFLOPs gates params (Some (num (k * s))) = Some (num (k * f)) ∧
    recurrent_calculateFLOPs gates params None
    = recurrent_calculateFLOPs gates params (Some (num 128)).
Proof.
  intros HI HH HL Hb Hg HI1 HH1 Hs1 Hk1 Hks.
  assert (Spec.sum_over_layers L (Spec.layer_flops gates I H (Spec.dir b) (k * s))
          = k * Spec.sum_over_layers L (Spec.layer_flops gates I H (Spec.dir b) s)) as Hscale.
  { apply sum_over_layers_scale. intros layer. unfold Spec.layer_flops. ring. }
  pose proof (layer_flops_sum_nonneg gates I H s L b Hg HI1 HH1 Hs1).
  eexists. split; [|split].
  - apply (recurrent_calculateFLOPs_sum gates params I H L s b); try done. nia.
  - rewrite (recurrent_calculateFLOPs_sum gates params I H L (k * s) b)
      by (done || nia).
    by rewrite Hscale.
  - reflexivity.
Qed.

Lemma recurrent_flops_linear_in_seqLen_witness :
  ∃ f : Z,
    lstm.calculateFLOPs recurrent_128_256 (Some (num 64)) = Some (num f) ∧
    lstm.calculateFLOPs recurrent_128_256 (Some (num (2 * 64))) = Some (num (2 * f)) ∧
    lstm.calculateFLOPs recurrent_128_256 None
    = lstm.calculateFLOPs recurrent_128_256 (Some (num 128)).
Proof.
  apply (recurrent_flops_linear_in_seqLen 4 recurrent_128_256 128 256 1 64 2 false);
    (reflexivity || lia || (vm_compute; discriminate)).
Defined.

(** With one layer, the bidirectional variant of a recurrent layer has
    twice the parameters and twice the FLOPs of the unidirectional one;
    sizes and length are positive integers, and the counts of the
    bidirectional variant are at most 2^53. *)
Theorem recurrent_single_layer_bidirectional (gates : Z)
    (uni bi : gmap string value) (I H s : Z) (seqLen : option number) :
  uni !! "input_size" = Some (VNum (num I)) →
  uni !! "hidden_size" = Some (VNum (num H)) →
  uni !! "num_layers" = Some (VNum (num 1)) →
  uni !! "bidirectional" = Some (VBool false) →
  bi = <["bidirectional" := VBool true]> uni →
  default seqLen 128 = num s →
  1 ≤ gates → 1 ≤ I → 1 ≤ H → 1 ≤ s →
  2 * gates * (I * H + H ^ 2 + 2 * H) ≤ 2 ^ 53 →
  gates * 2 * (I * H + H * H) * s * 2 ≤ 2 ^ 53 →
  ∃ p f : Z,
    recurrent_calculate gates uni = Some (num p) ∧
    recurrent_calculate gates bi = Some (num (2 * p)) ∧
    recurrent_calculateFLOPs gates uni seqLen = Some (num f) ∧
    recurrent_calculateFLOPs gates bi seqLen = Some (num (2 * f)).
Proof.
  intros HI HH HL Hb -> Hs Hg HI1 HH1 Hs1 Hp Hf.
  assert (0 ≤ I * H ∧ 0 ≤ H * H) as [??] by nia.
  assert (0 ≤ gates * (I * H + H ^ 2 + 2 * H)) by nia.
  assert (0 ≤ gates * 2 * (I * H + H * H) * s) by nia.
  exists (gates * (I * H + H ^ 2 + 2 * H)), (gates * 2 * (I * H + H * H) * s).
  repeat split.
  - rewrite (recurrent_calculate_sum gates uni I H 1 false) by
      (done || unfold Spec.sum_over_layers, Spec.layer_parameters,
                 Spec.layer_input_dim; simpl; lia).
    do 2 f_equal. unfold Spec.sum_over_layers, Spec.layer_parameters,
      Spec.layer_input_dim. simpl. ring.
  - rewrite (recurrent_calculate_sum gates _ I H 1 true) by
      (done || (by simplify_map_eq)
       || unfold Spec.sum_over_layers, Spec.layer_parameters,
            Spec.layer_input_dim; simpl; lia).
    do 2 f_equal. unfold Spec.sum_over_layers, Spec.layer_parameters,
      Spec.layer_input_dim. simpl. ring.
  - rewrite (recurrent_calculateFLOPs_sum gates uni I H 1 s false) by
      (done || unfold Spec.sum_over_layers, Spec.layer_flops,
                 Spec.layer_input_dim; simpl; lia).
    do 2 f_equal. unfold Spec.sum_over_layers, Spec.layer_flops,
      Spec.layer_input_dim. simpl. ring.
  - rewrite (recurrent_calculateFLOPs_sum gates _ I H 1 s true) by
      (done || (by simplify_map_eq)
       || unfold Spec.sum_over_layers, Spec.layer_flops,
            Spec.layer_input_dim; simpl; lia).
    do 2 f_equal. unfold Spec.sum_over_layers, Spec.layer_flops,
      Spec.layer_input_dim. simpl. ring.
Qed.

Lemma recurrent_single_layer_bidirectional_witness :
  ∃ p f : Z,
    lstm.calculate recurrent_128_256 = Some (num p) ∧
    lstm.calculate (<["bidirectional" := VBool true]> recurrent_128_256)
    = Some (num (2 * p)) ∧
    lstm.calculateFLOPs recurrent_128_256 None = Some (num f) ∧
    lstm.calculateFLOPs (<["bidirectional" := VBool true]> recurrent_128_256) None
    = Some (num (2 * f)).
Proof.
  apply (recurrent_single_layer_bidirectional 4 recurrent_128_256 _ 128 256 128 None);
    (reflexivity || lia).
Defined.

Lemma flops_sum_from_parameters_sum (gates I H d s : Z) (layers : list Z) :
  foldr (λ layer rest, Spec.layer_flops gates I H d s layer + rest) 0 layers
  = 2 * s * (foldr (λ layer rest, Spec.layer_parameters gates I H d layer + rest)
               0 layers
             - Z.of_nat (length layers) * (d * gates * (2 * H))).
Proof.
  unfold Spec.layer_parameters, Spec.layer_flops.
  induction layers as [|layer layers IH]; [simpl; lia|].
  cbn [foldr length]. rewrite IH, Nat2Z.inj_succ. ring.
Qed.

(** The FLOPs of a recurrent layer are two per weight and time step: the
    parameters less the [2 H] biases per gate, direction and layer, times
    twice the sequence length.  Sizes and length are positive integers,
    and the parameters and the FLOPs are at most 2^53. *)
Theorem recurrent_flops_from_parameters (gates : Z) (params : gmap string value)
    (I H L s : Z) (b : bool) (seqLen : option number) :
  params !! "input_size" = Some (VNum (num I)) →
  params !! "hidden_size" = Some (VNum (num H)) →
  params !! "num_layers" = Some (VNum (num L)) →
  params !! "bidirectional" = Some (VBool b) →
  default seqLen 128 = num s →
  0 ≤ L →
  1 ≤ gates → 1 ≤ I → 1 ≤ H → 1 ≤ s →
  Spec.sum_over_layers L (Spec.layer_parameters gates I H (Spec.dir b)) ≤ 2 ^ 53 →
  Spec.sum_over_layers L (Spec.layer_flops gates I H (Spec.dir b) s) ≤ 2 ^ 53 →
  ∃ p : Z,
    recurrent_calculate gates params = Some (num p) ∧
    recurrent_calculateFLOPs gates params seqLen
    = Some (num (2 * s * (p - L * (Spec.dir b * gates * (2 * H))))).
Proof.
  intros HI HH HL Hb Hs HL0 Hg HI1 HH1 Hs1 Hp Hf. eexists. split.
  - by apply (recurrent_calculate_sum gates params I H L b).
  - rewrite (recurrent_calculateFLOPs_sum gates params I H L s b) by done.
    do 2 f_equal. unfold Spec.sum_over_layers.
    rewrite (flops_sum_from_parameters_sum gates I H (Spec.dir b) s).
    rewrite length_seqZ, Z2Nat.id by done. done.
Qed.

Lemma recurrent_flops_from_parameters_witness :
  ∃ p : Z,
    gru.calculate recurrent_stacked = Some (num p) ∧
    gru.calculateFLOPs recurrent_stacked None
    = Some (num (2 * 128 * (p - 2 * (2 * 3 * (2 * 256))))).
Proof.
  apply (recurrent_flops_from_parameters 3 recurrent_stacked 128 256 2 128 true None);
    (reflexivity || lia || (vm_compute; discriminate)).
Defined.

(** ** The Transformer block and its parts *)

(** A Transformer block has the parameters of its parts in the registry:
    the attention of the same width, the two Linear layers with bias of
    the feed-forward network, and two LayerNorms.  Its FLOPs are those of
    the attention and, per position, of the two Linear layers; the two
    LayerNorms add none.  With [d_ff = 4 d_model] the parameters are
    [12 d^2 + 13 d].  Widths and length are positive integers, and the
    parameters and FLOPs of the block are at most 2^53. *)
Theorem transformer_is_sum_of_parts (params fc1 fc2 ln : gmap string value)
    (d ff s : Z) (seqLen : option number) :
  params !! "d_model" = Some (VNum (num d)) →
  params !! "d_ff" = Some (VNum (num ff)) →
  default seqLen 512 = num s →
  fc1 = {[ "input_dim" := VNum (num d); "output_dim" := VNum (num ff);
           "use_bias" := VBool true ]} →
  fc2 = {[ "input_dim" := VNum (num ff); "output_dim" := VNum (num d);
           "use_bias" := VBool true ]} →
  ln = {[ "normalized_shape" := VNum (num d) ]} →
  1 ≤ d → 1 ≤ ff → 1 ≤ s →
  4 * (d ^ 2 + d) + (2 * d * ff + ff + d) + 4 * d ≤ 2 ^ 53 →
  8 * s * d ^ 2 + 2 * s ^ 2 * d + 4 * s * d * ff ≤ 2 ^ 53 →
  transformer.calculate params
  = (attention.calculate params + linear.calculate fc1 + linear.calculate fc2
     + num 2 * layernorm.calculate ln)%js ∧
  transformer.calculateFLOPs params seqLen
  = (attention.calculateFLOPs params seqLen
     + num s * (linear.calculateFLOPs fc1 + linear.calculateFLOPs fc2))%js ∧
  attention.calculate params = num (4 * (d ^ 2 + d)) ∧
  attention.calculateFLOPs params seqLen = num (8 * s * d ^ 2 + 2 * s ^ 2 * d) ∧
  (ff = 4 * d → transformer.calculate params = num (12 * d ^ 2 + 13 * d)).
Proof.
  intros Hd Hff Hs -> -> -> Hd1 Hff1 Hs1 Hp Hf.
  unfold transformer.calculate, transformer.calculateFLOPs, attention.calculate,
    attention.calculateFLOPs, linear.calculate, linear.calculateFLOPs,
    layernorm.calculate.
  rewrite Hs. cbv zeta.
  rewrite !(field_num params "d_model" d), !(field_num params "d_ff" ff) by done.
  rewrite !(field_num _ "input_dim" d), !(field_num _ "output_dim" ff),
    !(field_num _ "input_dim" ff), !(field_num _ "output_dim" d),
    !(field_num _ "normalized_shape" d), !(flag_bool _ "use_bias" true)
    by reflexivity.
  assert (d ≤ d * d ∧ d ≤ d * ff ∧ ff ≤ d * ff) as (? & ? & ?) by nia.
  assert (s ≤ s * d ∧ s ≤ s * s ∧ s * d ≤ s * d * d ∧ s * s ≤ s * s * d
          ∧ s * d ≤ s * s * d) as (? & ? & ? & ? & ?) by nia.
  assert (d * ff ≤ s * (d * ff) ∧ d ≤ s * d) as (? & ?) by nia.
  js_exact.
  repeat split; try (f_equal; ring).
  intros ->. f_equal. ring.
Qed.

Import MoreExamples.

Lemma transformer_is_sum_of_parts_witness :
  transformer.calculate transformer_512
  = (attention.calculate transformer_512 + linear.calculate ffn_in
     + linear.calculate ffn_out + num 2 * layernorm.calculate layernorm_512)%js ∧
  transformer.calculateFLOPs transformer_512 None
  = (attention.calculateFLOPs transformer_512 None
     + num 512 * (linear.calculateFLOPs ffn_in + linear.calculateFLOPs ffn_out))%js ∧
  attention.calculate transformer_512 = num (4 * (512 ^ 2 + 512)) ∧
  attention.calculateFLOPs transformer_512 None
  = num (8 * 512 * 512 ^ 2 + 2 * 512 ^ 2 * 512) ∧
  (2048 = 4 * 512 →
   transformer.calculate transformer_512 = num (12 * 512 ^ 2 + 13 * 512)).
Proof.
  apply (transformer_is_sum_of_parts transformer_512 ffn_in ffn_out layernorm_512
           512 2048 512 None); (reflexivity || lia).
Defined.

(** * The state updates of the component *)

(** ** Adding and deleting layers *)

(** [deleteLayer] keeps, in their order, exactly the layers whose id is
    not the one given, and nothing is left to delete after it. *)
Theorem deleteLayer_spec (id0 : number) (prev : list Layer) :
  Editing.deleteLayer id0 prev `sublist_of` prev ∧
  (∀ layer : Layer,
     layer ∈ Editing.deleteLayer id0 prev
     ↔ layer ∈ prev ∧ strict_eq (id layer) id0 = false) ∧
  Editing.deleteLayer id0 (Editing.deleteLayer id0 prev)
  = Editing.deleteLayer id0 prev.
Proof.
  unfold Editing.deleteLayer. split; [apply sublist_filter|]. split.
  - intros layer. rewrite list_elem_of_filter. tauto.
  - rewrite list_filter_filter. apply list_filter_iff. tauto.
Qed.

(** Deleting an id that no layer has leaves the model as it is. *)
Lemma deleteLayer_absent (id0 : number) (prev : list Layer) :
  Forall (λ layer, strict_eq (id layer) id0 = false) prev →
  Editing.deleteLayer id0 prev = prev.
Proof.
  unfold Editing.deleteLayer. induction 1 as [|layer ls Hl _ IH]; [done|].
  rewrite filter_cons_True by done. by rewrite IH.
Qed.

(** A layer added under a fresh id is what [deleteLayer] of that id
    removes: the model is back to what it was.  The new layer is the last
    one and has the default configuration of its type. *)
Theorem addLayer_deleteLayer (newId : number) (t : LayerType) (prev : list Layer) :
  newId ≠ NaN →
  Forall (λ layer, strict_eq (id layer) newId = false) prev →
  Editing.deleteLayer newId (Editing.addLayer newId t prev) = prev ∧
  Editing.addLayer newId t prev !! length prev
  = Some (mkLayer newId t (Descriptors.defaultParams t)) ∧
  ∀ i : nat, (i < length prev)%nat → Editing.addLayer newId t prev !! i = prev !! i.
Proof.
  intros Hnan Hfresh. unfold Editing.addLayer. split; [|split].
  - unfold Editing.deleteLayer. rewrite filter_app.
    fold (Editing.deleteLayer newId prev). rewrite deleteLayer_absent by done.
    rewrite filter_cons_False, filter_nil; [by rewrite app_nil_r|].
    simpl. destruct newId; try done; unfold strict_eq;
      by rewrite bool_decide_eq_true_2.
  - by rewrite lookup_app_r, Nat.sub_diag.
  - intros i Hi. by rewrite lookup_app_l.
Qed.

Lemma addLayer_deleteLayer_witness :
  Editing.deleteLayer (num 9) (Editing.addLayer (num 9) Conv2d three_layers)
  = three_layers ∧
  Editing.addLayer (num 9) Conv2d three_layers !! length three_layers
  = Some (mkLayer (num 9) Conv2d (Descriptors.defaultParams Conv2d)) ∧
  ∀ i : nat, (i < length three_layers)%nat →
    Editing.addLayer (num 9) Conv2d three_layers !! i = three_layers !! i.
Proof.
  apply (addLayer_deleteLayer (num 9) Conv2d three_layers); [discriminate|].
  repeat constructor.
Defined.

(** ** Reordering layers *)

Import Editing.

Lemma splice_in_lookup (index : nat) (x : Layer) (l : list Layer) :
  (index ≤ length l)%nat → splice_in index x l !! index = Some x.
Proof.
  intros Hi. unfold splice_in.
  rewrite lookup_app_r by (rewrite length_take; lia).
  rewrite length_take. by replace (index - index `min` length l)%nat with 0%nat by lia.
Qed.

Lemma splice_in_delete (index : nat) (x : Layer) (l : list Layer) :
  (index ≤ length l)%nat → delete index (splice_in index x l) = l.
Proof.
  intros Hi. unfold splice_in. rewrite delete_take_drop.
  rewrite take_app_length' by (rewrite length_take; lia).
  rewrite cons_middle, app_assoc.
  rewrite drop_app_length' by (rewrite length_app, length_take; simpl; lia).
  apply take_drop.
Qed.

Lemma splice_in_Permutation (index : nat) (x : Layer) (l : list Layer) :
  splice_in index x l ≡ₚ x :: l.
Proof.
  unfold splice_in. rewrite <-Permutation_middle. by rewrite take_drop.
Qed.

(** Dragging the layer at [draggedIndex] over the one at [index] (both
    indices of the model) moves it there: the model keeps its layers, the
    dragged layer is at [index], the other layers keep their order, and
    dragging it back restores the model.  The handler does this, and
    makes [index] the dragged index, unless the two indices are equal. *)
Theorem moveLayer_spec (draggedIndex index : nat) (prev : list Layer) :
  (draggedIndex < length prev)%nat →
  (index < length prev)%nat →
  ∃ (draggedLayer : Layer) (next : list Layer),
    prev !! draggedIndex = Some draggedLayer ∧
    moveLayer draggedIndex index prev = Some next ∧
    next ≡ₚ prev ∧
    next !! index = Some draggedLayer ∧
    delete index next = delete draggedIndex prev ∧
    moveLayer index draggedIndex next = Some prev ∧
    (draggedIndex ≠ index →
     handleLayerDragOver index (Some draggedIndex, prev) = Some (Some index, next)).
Proof.
  intros Hd Hi.
  destruct (lookup_lt_is_Some_2 prev draggedIndex Hd) as [x Hx].
  assert (index ≤ length (delete draggedIndex prev))%nat as Hlen
    by (rewrite length_delete by eauto; lia).
  exists x, (splice_in index x (delete draggedIndex prev)).
  assert (moveLayer draggedIndex index prev
          = Some (splice_in index x (delete draggedIndex prev))) as Hmove
    by (unfold moveLayer; by rewrite Hx).
  repeat split; try done.
  - rewrite splice_in_Permutation. symmetry. by apply delete_Permutation.
  - by apply splice_in_lookup.
  - by apply splice_in_delete.
  - unfold moveLayer. rewrite splice_in_lookup by done. simpl.
    rewrite splice_in_delete by done. f_equal. unfold splice_in.
    rewrite delete_take_drop.
    rewrite take_app_length' by (rewrite length_take; lia).
    rewrite drop_app_length' by (rewrite length_take; lia).
    by apply take_drop_middle.
  - intros Hne. unfold handleLayerDragOver. simpl.
    rewrite bool_decide_eq_false_2 by done. by rewrite Hmove.
Qed.

Lemma moveLayer_spec_witness :
  ∃ (draggedLayer : Layer) (next : list Layer),
    three_layers !! 0%nat = Some draggedLayer ∧
    moveLayer 0 2 three_layers = Some next ∧
    next ≡ₚ three_layers ∧
    next !! 2%nat = Some draggedLayer ∧
    delete 2%nat next = delete 0%nat three_layers ∧
    moveLayer 2 0 next = Some three_layers ∧
    (0%nat ≠ 2%nat →
     handleLayerDragOver 2 (Some 0%nat, three_layers) = Some (Some 2%nat, next)).
Proof.
  apply (moveLayer_spec 0 2 three_layers); simpl; lia.
Defined.

(** Without a dragged layer, over the dragged layer itself, or when the
    dragged index is no index of the model, the handler leaves the state
    alone or yields no model. *)
Lemma handleLayerDragOver_idle (index : nat) (prev : list Layer) :
  handleLayerDragOver index (None, prev) = Some (None, prev) ∧
  handleLayerDragOver index (Some index, prev) = Some (Some index, prev) ∧
  ∀ draggedIndex : nat,
    (length prev ≤ draggedIndex)%nat → moveLayer draggedIndex index prev = None.
Proof.
  unfold handleLayerDragOver, moveLayer. simpl.
  rewrite bool_decide_eq_true_2 by done. repeat split.
  intros d Hd. by rewrite lookup_ge_None_2.
Qed.

(** ** Totals under the state updates *)

Import Sums.

Lemma is_count_spec (o : option number) :
  is_count o = true ↔ ∃ p : Z, 0 ≤ p ∧ o = Some (num p).
Proof.
  split.
  - destruct o as [[q| | |]|]; try done. simpl.
    intros [Hq%bool_decide_eq_true_1 Hp%bool_decide_eq_true_1]%andb_prop.
    exists (Qfloor q). split; [done|]. unfold num. by rewrite Hq.
  - intros (p & Hp & ->). unfold num, is_count. rewrite Qfloor_Z2Qc.
    by rewrite !bool_decide_eq_true_2.
Qed.

Lemma count_of_num (p : Z) : count_of (Some (num p)) = p.
Proof. apply Qfloor_Z. Qed.

Lemma all_counts_Forall (f : Layer → option number) (modelLayers : list Layer) :
  all_counts f modelLayers = true
  ↔ Forall (λ layer, ∃ p : Z, 0 ≤ p ∧ f layer = Some (num p)) modelLayers.
Proof.
  unfold all_counts. induction modelLayers as [|layer ls IH]; simpl.
  - split; [constructor|done].
  - rewrite andb_true_iff, IH, Forall_cons, is_count_spec. done.
Qed.

Lemma sum_of_nonneg (f : Layer → option number) (modelLayers : list Layer) :
  all_counts f modelLayers = true → 0 ≤ sum_of f modelLayers.
Proof.
  rewrite all_counts_Forall. unfold sum_of.
  induction 1 as [|layer ls (p & Hp & Hf) _ IH]; cbn [foldr]; [done|].
  rewrite Hf, count_of_num. lia.
Qed.

(** A reduction over counts is their sum, as long as it stays within
    2^53. *)
Lemma foldl_reducer_sum (f : Layer → option number) (modelLayers : list Layer) :
  all_counts f modelLayers = true →
  ∀ a : Z, 0 ≤ a → a + sum_of f modelLayers ≤ 2 ^ 53 →
    foldl (reducer f) (Some (num a)) modelLayers
    = Some (num (a + sum_of f modelLayers)).
Proof.
  intros Hall. pose proof Hall as Hall'. rewrite all_counts_Forall in Hall'.
  induction Hall' as [|layer ls (p & Hp & Hf) Hls IH]; intros a Ha Hsum.
  - simpl. by rewrite Z.add_0_r.
  - apply all_counts_Forall in Hls. pose proof (sum_of_nonneg f ls Hls).
    cbn [foldl sum_of foldr] in Hsum |- *. fold (sum_of f ls) in Hsum |- *.
    rewrite Hf, count_of_num in Hsum |- *.
    unfold reducer at 2. simpl. rewrite Hf. simpl.
    rewrite add_num by lia. rewrite IH by (done || lia). do 2 f_equal. lia.
Qed.

Lemma reduction_sum (f : Layer → option number) (modelLayers : list Layer) :
  all_counts f modelLayers = true → sum_of f modelLayers ≤ 2 ^ 53 →
  foldl (reducer f) (Some (num 0)) modelLayers = Some (num (sum_of f modelLayers)).
Proof. intros Hall Hsum. by rewrite foldl_reducer_sum. Qed.

Lemma sum_of_Permutation (f : Layer → option number) (l1 l2 : list Layer) :
  l1 ≡ₚ l2 → sum_of f l1 = sum_of f l2.
Proof.
  unfold sum_of. induction 1 as [|x l1 l2 _ IH|x y l|l1 l2 l3 _ IH1 _ IH2];
    cbn [foldr]; [done|by rewrite IH|ring|by rewrite IH1].
Qed.

Lemma sum_of_app (f : Layer → option number) (l1 l2 : list Layer) :
  sum_of f (l1 ++ l2) = sum_of f l1 + sum_of f l2.
Proof.
  unfold sum_of. induction l1 as [|x l1 IH]; cbn [foldr app]; [ring|].
  rewrite IH. ring.
Qed.

Lemma all_counts_Permutation (f : Layer → option number) (l1 l2 : list Layer) :
  l1 ≡ₚ l2 → all_counts f l1 = true → all_counts f l2 = true.
Proof. rewrite !all_counts_Forall. by intros ->. Qed.

Lemma reduction_Permutation (f : Layer → option number) (prev next : list Layer) :
  prev ≡ₚ next →
  all_counts f prev = true → sum_of f prev ≤ 2 ^ 53 →
  foldl (reducer f) (Some (num 0)) next = Some (num (sum_of f prev)).
Proof.
  intros Hperm Hall Hsum. rewrite (sum_of_Permutation f prev next Hperm) in Hsum |- *.
  apply reduction_sum; [|done]. by apply (all_counts_Permutation f prev).
Qed.

Lemma Forall_filter_keep (P Q : Layer → Prop) `{!∀ layer, Decision (Q layer)}
    (l : list Layer) :
  Forall P l → Forall P (filter Q l).
Proof.
  rewrite !Forall_forall. intros HP x [_ Hx]%list_elem_of_filter. by apply HP.
Qed.

(** Beyond 2^53 the order of the layers matters to the total: after an
    embedding of 2^66 parameters, two Linear layers of 4160 parameters
    each are rounded away one by one; before it, their 8320 parameters
    are enough to reach the next double. *)
Lemma total_depends_on_order :
  let embedding := mkLayer (num 1) Embedding
    {[ "vocab_size" := VNum (num (2 ^ 60)); "embedding_dim" := VNum (num 64) ]} in
  let linear := mkLayer (num 2) Linear
    {[ "input_dim" := VNum (num 64); "output_dim" := VNum (num 64);
       "use_bias" := VBool true ]} in
  totalParams [embedding; linear; linear] = Some (num (2 ^ 66)) ∧
  totalParams [linear; linear; embedding] = Some (num (2 ^ 66 + 2 ^ 14)).
Proof. split; closed_number. Qed.

(** The order of the layers does not matter to the totals: when the
    layers of a model have counts (integers that are not negative) whose
    sum is at most 2^53, every model with the same layers in another
    order, such as the model after a move, has the same total of
    parameters and of FLOPs, the sum of the counts. *)
Theorem totals_invariant_under_reordering (prev next : list Layer) :
  prev ≡ₚ next →
  all_counts layerParams prev = true → sum_of layerParams prev ≤ 2 ^ 53 →
  all_counts layerFLOPs prev = true → sum_of layerFLOPs prev ≤ 2 ^ 53 →
  totalParams prev = Some (num (sum_of layerParams prev)) ∧
  totalParams next = totalParams prev ∧
  totalFLOPs prev = Some (num (sum_of layerFLOPs prev)) ∧
  totalFLOPs next = totalFLOPs prev ∧
  (∀ (draggedIndex index : nat) (moved : list Layer),
     moveLayer draggedIndex index prev = Some moved →
     totalParams moved = totalParams prev ∧ totalFLOPs moved = totalFLOPs prev).
Proof.
  intros Hperm Hp Hpsum Hf Hfsum.
  assert (totalParams prev = Some (num (sum_of layerParams prev))) as HP
    by (by apply reduction_sum).
  assert (totalFLOPs prev = Some (num (sum_of layerFLOPs prev))) as HF
    by (by apply (reduction_sum layerFLOPs)).
  rewrite HP, HF. repeat split.
  - by apply reduction_Permutation.
  - by apply (reduction_Permutation layerFLOPs).
  - apply reduction_Permutation; [|done..].
    unfold moveLayer in H. destruct (prev !! draggedIndex) as [x|] eqn:Hx; simplify_eq/=.
    rewrite splice_in_Permutation. by apply delete_Permutation.
  - apply (reduction_Permutation layerFLOPs); [|done..].
    unfold moveLayer in H. destruct (prev !! draggedIndex) as [x|] eqn:Hx; simplify_eq/=.
    rewrite splice_in_Permutation. by apply delete_Permutation.
Qed.

Lemma totals_invariant_under_reordering_witness :
  totalParams three_layers = Some (num 2498816) ∧
  totalParams (reverse three_layers) = totalParams three_layers ∧
  totalFLOPs three_layers = Some (num 604241920) ∧
  totalFLOPs (reverse three_layers) = totalFLOPs three_layers ∧
  (∀ (draggedIndex index : nat) (moved : list Layer),
     moveLayer draggedIndex index three_layers = Some moved →
     totalParams moved = totalParams three_layers ∧
     totalFLOPs moved = totalFLOPs three_layers).
Proof.
  apply (totals_invariant_under_reordering three_layers (reverse three_layers)).
  - symmetry. apply reverse_Permutation.
  - vm_compute. reflexivity.
  - vm_compute. discriminate.
  - vm_compute. reflexivity.
  - vm_compute. discriminate.
Defined.

(** Adding a layer raises the total by the count of the new layer;
    deleting splits it into the total of the layers kept and the total of
    the layers deleted.  The layers have counts, and the total, the new
    layer included, is at most 2^53. *)
Theorem totalParams_add_delete (prev : list Layer) :
  all_counts layerParams prev = true → sum_of layerParams prev ≤ 2 ^ 53 →
  let t := sum_of layerParams prev in
  totalParams prev = Some (num t) ∧
  (∀ (newId : number) (ty : LayerType) (p : Z),
     layerParams (mkLayer newId ty (Descriptors.defaultParams ty)) = Some (num p) →
     0 ≤ p → t + p ≤ 2 ^ 53 →
     totalParams (addLayer newId ty prev) = Some (num (t + p))) ∧
  (∀ id0 : number, ∃ kept deleted : Z,
     totalParams (deleteLayer id0 prev) = Some (num kept) ∧
     totalParams (filter (λ layer, strict_eq (id layer) id0 = true) prev)
     = Some (num deleted) ∧
     0 ≤ kept ∧ 0 ≤ deleted ∧ t = kept + deleted).
Proof.
  intros Hall Hsum t. pose proof Hall as Hfor. rewrite all_counts_Forall in Hfor.
  split; [by apply reduction_sum|]. split.
  - intros newId ty p Hp Hp0 Hbound. unfold totalParams, addLayer.
    assert (sum_of layerParams (prev ++ [mkLayer newId ty (Descriptors.defaultParams ty)])
            = t + p) as Hadd.
    { rewrite sum_of_app. unfold sum_of at 2. simpl. rewrite Hp, count_of_num.
      fold t. lia. }
    rewrite <-Hadd. apply reduction_sum; [|by rewrite Hadd].
    apply all_counts_Forall, Forall_app. split; [done|].
    repeat constructor. by exists p.
  - intros id0.
    set (kept := deleteLayer id0 prev).
    set (deleted := filter (λ layer, strict_eq (id layer) id0 = true) prev).
    assert (all_counts layerParams kept = true) as Hk
      by (apply all_counts_Forall; by apply Forall_filter_keep).
    assert (all_counts layerParams deleted = true) as Hd
      by (apply all_counts_Forall; by apply Forall_filter_keep).
    assert (t = sum_of layerParams kept + sum_of layerParams deleted) as Hsplit.
    { rewrite <-sum_of_app. apply sum_of_Permutation. unfold kept, deleted, deleteLayer.
      rewrite <-(filter_app_complement
                   (λ layer, strict_eq (id layer) id0 = false) prev) at 1.
      f_equiv.
      rewrite (list_filter_iff _ (λ layer, strict_eq (id layer) id0 = true));
        [done|].
      intros layer. by destruct (strict_eq (id layer) id0). }
    pose proof (sum_of_nonneg _ _ Hk). pose proof (sum_of_nonneg _ _ Hd).
    exists (sum_of layerParams kept), (sum_of layerParams deleted).
    repeat split; try done.
    + apply reduction_sum; [done|]. fold t in Hsum. lia.
    + apply reduction_sum; [done|]. fold t in Hsum. lia.
Qed.

Lemma totalParams_add_delete_witness :
  totalParams three_layers = Some (num 2498816) ∧
  (∀ (newId : number) (ty : LayerType) (p : Z),
     layerParams (mkLayer newId ty (Descriptors.defaultParams ty)) = Some (num p) →
     0 ≤ p → 2498816 + p ≤ 2 ^ 53 →
     totalParams (addLayer newId ty three_layers) = Some (num (2498816 + p))) ∧
  (∀ id0 : number, ∃ kept deleted : Z,
     totalParams (deleteLayer id0 three_layers) = Some (num kept) ∧
     totalParams (filter (λ layer, strict_eq (id layer) id0 = true) three_layers)
     = Some (num deleted) ∧
     0 ≤ kept ∧ 0 ≤ deleted ∧ 2498816 = kept + deleted).
Proof.
  apply (totalParams_add_delete three_layers).
  - vm_compute. reflexivity.
  - vm_compute. discriminate.
Defined.

(** * Configurations in order *)

(** ** The registry on configurations in order *)

Lemma sum_over_layers_nonneg (L : Z) (term : Z → Z) :
  (∀ layer, 0 ≤ layer → 0 ≤ term layer) → 0 ≤ Spec.sum_over_layers L term.
Proof.
  intros Hterm. unfold Spec.sum_over_layers.
  assert (Forall (λ layer, 0 ≤ layer) (seqZ 0 L)) as Hall.
  { apply Forall_forall. intros layer Hin%elem_of_seqZ. lia. }
  induction Hall as [|layer layers Hl _ IH]; cbn [foldr]; [done|].
  specialize (Hterm layer Hl). lia.
Qed.

Lemma Qfloor_unique (y : Qc) (n : Z) :
  (Qc_of_Z n ≤ y < Qc_of_Z (n + 1))%Qc → Qfloor y = n.
Proof.
  intros [H1 H2]. pose proof (Qfloor_le y) as H3. pose proof (Qlt_floor y) as H4.
  assert (inject_Z n < inject_Z (Qfloor y + 1))%Q as H5
    by (eapply Qle_lt_trans; [exact H1|exact H4]).
  assert (inject_Z (Qfloor y) < inject_Z (n + 1))%Q as H6
    by (eapply Qle_lt_trans; [exact H3|exact H2]).
  rewrite <-Zlt_Qlt in H5, H6. lia.
Qed.

(** A quotient of integers, as the code computes it, differs from the
    exact quotient by less than the reciprocal of the divisor, when the
    numerator is below 2^53. *)
Lemma div_num_error (a b : Z) :
  1 ≤ a < 2 ^ 53 → 1 ≤ b ≤ 2 ^ 53 →
  ∃ y : Qc,
    (num a / num b)%js = Fin y ∧
    (Qc_of_Z (a - 1) < y * Qc_of_Z b < Qc_of_Z (a + 1))%Qc.
Proof.
  intros Ha Hb.
  assert (0 < Qc_of_Z b)%Qc as Hbq by (apply Z2Qc_pos; lia).
  assert (Qc_of_Z b ≠ 0%Qc) as Hne
    by (intros E; rewrite E in Hbq; by apply Qclt_not_eq in Hbq).
  unfold div. rewrite !double_num by lia. unfold num at 1 2.
  rewrite decide_False by done.
  set (q := (Qc_of_Z a / Qc_of_Z b)%Qc).
  assert (q * Qc_of_Z b = Qc_of_Z a)%Qc as Hqb.
  { unfold q, Qcdiv. by rewrite <-Qcmult_assoc, Qcmult_inv_l, Qcmult_1_r. }
  assert (Qc_of_Z a * pow2 (-53) < 1)%Qc as Hae.
  { apply (Qcmult_lt_mono_pos_r _ _ (pow2 53)); [apply pow2_pos|].
    rewrite <-Qcmult_assoc, <-pow2_add. change (-53 + 53) with 0.
    rewrite pow2_0, Qcmult_1_r, Qcmult_1_l, pow2_nonneg by lia.
    rewrite <-Z2Qc_inj_lt. lia. }
  assert (Qc_of_Z 1 ≤ Qc_of_Z a)%Qc as Ha1 by (rewrite <-Z2Qc_inj_le; lia).
  assert (Qc_of_Z 1 ≤ Qc_of_Z b)%Qc as Hb1 by (rewrite <-Z2Qc_inj_le; lia).
  assert (Qc_of_Z a ≤ pow2 53)%Qc as Ha53
    by (rewrite pow2_nonneg by lia; rewrite <-Z2Qc_inj_le; lia).
  assert (Qc_of_Z b ≤ pow2 53)%Qc as Hb53
    by (rewrite pow2_nonneg by lia; rewrite <-Z2Qc_inj_le; lia).
  assert (pow2 53 * pow2 (-53) = 1)%Qc as Hunit by apply pow2_opp.
  assert (pow2 (-1022) ≤ pow2 (-53))%Qc as Hmin by (apply pow2_le; lia).
  assert (pow2 53 ≤ pow2 1023)%Qc as Hmax by (apply pow2_le; lia).
  pose proof (pow2_pos (-53)) as He0. pose proof (round_error q) as Hround.
  rewrite !Z2Qc_inj_sub, !Z2Qc_inj_add.
  set (A := Qc_of_Z a) in *. set (B := Qc_of_Z b) in *.
  set (e := pow2 (-53)) in *. set (T := pow2 53) in *.
  set (lo := pow2 (-1022)) in *. set (hi := pow2 1023) in *.
  clearbody A B e T lo hi q. clear Hne.
  destruct Hround as (y & Hy & _ & Hlo & Hhi).
  { split; qc_to_q; cbv [inject_Z] in *; nra. }
  exists y. split; [done|].
  split; qc_to_q; cbv [inject_Z] in *; nra.
Qed.

(** [Math.floor(a / b)] on integers is the integer quotient, when the
    numerator is below 2^53. *)
Lemma floor_div_num (a b : Z) :
  0 ≤ a < 2 ^ 53 → 1 ≤ b ≤ 2 ^ 53 →
  Math_floor (num a / num b)%js = num (a / b).
Proof.
  intros Ha Hb.
  pose proof (Z.div_mod a b ltac:(lia)) as Hdiv.
  pose proof (Z.mod_pos_bound a b ltac:(lia)) as Hmod.
  destruct (decide (a `mod` b = 0)) as [Hr|Hr].
  - assert (0 ≤ a / b ≤ a) as Hn by (split; [apply Z.div_pos; lia|nia]).
    unfold div. rewrite !double_num by lia. unfold num at 1 2.
    rewrite decide_False.
    2: { rewrite <-Z2Qc_inj_0. intros E. apply Z2Qc_inj in E. lia. }
    replace (Qc_of_Z a / Qc_of_Z b)%Qc with (Qc_of_Z (a / b)).
    + rewrite round_Z by lia. unfold Math_floor, num. by rewrite Qfloor_Z2Qc.
    + rewrite Hr, Z.add_0_r, Z.mul_comm in Hdiv.
      replace (Qc_of_Z a) with (Qc_of_Z (a / b * b)) by (f_equal; congruence).
      rewrite Z2Qc_inj_mul.
      unfold Qcdiv. rewrite <-Qcmult_assoc, Qcmult_inv_r, Qcmult_1_r; [done|].
      rewrite <-Z2Qc_inj_0. intros E. apply Z2Qc_inj in E. lia.
  - assert (1 ≤ a)
      by (destruct (decide (a = 0)) as [->|]; [by rewrite Zmod_0_l in Hr|lia]).
    destruct (div_num_error a b) as (y & Hy & Hlo & Hhi); [lia..|].
    rewrite Hy. unfold Math_floor. f_equal. apply Qfloor_unique.
    assert (0 < Qc_of_Z b)%Qc as Hbq by (apply Z2Qc_pos; lia).
    split.
    + apply (Qcmult_le_mono_pos_r _ _ (Qc_of_Z b)); [done|].
      apply Qclt_le_weak. eapply Qcle_lt_trans; [|exact Hlo].
      rewrite <-Z2Qc_inj_mul, <-Z2Qc_inj_le. nia.
    + apply (Qcmult_lt_mono_pos_r _ _ (Qc_of_Z b)); [done|].
      eapply Qclt_le_trans; [exact Hhi|].
      rewrite <-Z2Qc_inj_mul, <-Z2Qc_inj_le. nia.
Qed.

(** *** Interval arithmetic on the formulas *)

Lemma interval_mul (a b A B : Z) : 0 ≤ a ≤ A → 0 ≤ b ≤ B → 0 ≤ a * b ≤ A * B.
Proof. nia. Qed.

Lemma interval_add (a b A B : Z) : 0 ≤ a ≤ A → 0 ≤ b ≤ B → 0 ≤ a + b ≤ A + B.
Proof. lia. Qed.

Lemma interval_div (a b A : Z) : 0 ≤ a ≤ A → 1 ≤ b → 0 ≤ a / b ≤ A.
Proof.
  intros Ha Hb. split; [apply Z.div_pos; lia|].
  transitivity a; [|lia]. apply Z.div_le_upper_bound; nia.
Qed.

Lemma interval_const (c : Z) : 0 ≤ c → 0 ≤ c ≤ c.
Proof. lia. Qed.

Lemma interval_pos (a A : Z) : 1 ≤ a ≤ A → 0 ≤ a ≤ A.
Proof. lia. Qed.

Lemma mul_num_interval (a b A B : Z) :
  0 ≤ a ≤ A → 0 ≤ b ≤ B → A ≤ 2 ^ 53 → B ≤ 2 ^ 53 → A * B ≤ 2 ^ 53 →
  (num a * num b)%js = num (a * b).
Proof. intros. apply mul_num; nia. Qed.

Lemma add_num_interval (a b A B : Z) :
  0 ≤ a ≤ A → 0 ≤ b ≤ B → A + B ≤ 2 ^ 53 →
  (num a + num b)%js = num (a + b).
Proof. intros. apply add_num; lia. Qed.

(** An interval for an integer expression, from the intervals of its
    variables among the hypotheses. *)
Ltac interval t :=
  lazymatch t with
  | (?a * ?b)%Z =>
      let Ha := interval a in
      let Hb := interval b in
      constr:(interval_mul a b _ _ Ha Hb)
  | (?a + ?b)%Z =>
      let Ha := interval a in
      let Hb := interval b in
      constr:(interval_add a b _ _ Ha Hb)
  | (?a `div` ?b)%Z =>
      let Ha := interval a in
      constr:(interval_div a b _ Ha ltac:(lia))
  | _ =>
      lazymatch goal with
      | H : 0 ≤ t ≤ _ |- _ => constr:(H)
      | H : 1 ≤ t ≤ _ |- _ => constr:(interval_pos t _ H)
      | _ => constr:(interval_const t ltac:(lia))
      end
  end.

(** Computes the sums and products of bounded integers in the goal. *)
Ltac js_interval :=
  repeat match goal with
  | |- context [(num ?a * num ?b)%js] =>
      let Ha := interval a in
      let Hb := interval b in
      rewrite (mul_num_interval a b _ _ Ha Hb) by lia
  | |- context [(num ?a + num ?b)%js] =>
      let Ha := interval a in
      let Hb := interval b in
      rewrite (add_num_interval a b _ _ Ha Hb) by lia
  end.

(** Takes the hypothesis that a configuration is bounded apart, field by
    field. *)
Ltac fields_bounded H :=
  unfold Descriptors.bounded, Descriptors.fields in H;
  repeat match type of H with
  | Forall _ (_ :: _) =>
      let Hf := fresh "Hf" in
      apply Forall_cons_1 in H as [Hf H];
      unfold Descriptors.field_bounded, Descriptors.limit in Hf; simpl in Hf;
      first [ destruct Hf as (? & ? & Hf) | destruct Hf as (? & Hf) ]
  end;
  clear H;
  repeat match goal with
  | Hz : 1 ≤ _ ≤ ?e |- _ =>
      let v := eval vm_compute in e in
      progress change e with v in Hz
  end.

Lemma sum_over_layers_le (L C : Z) (term : Z → Z) :
  (∀ layer, 0 ≤ term layer ≤ C) → 0 ≤ L →
  0 ≤ Spec.sum_over_layers L term ≤ L * C.
Proof.
  intros Hterm HL. unfold Spec.sum_over_layers.
  assert (0 ≤ foldr (λ l rest, term l + rest) 0 (seqZ 0 L)
          ≤ Z.of_nat (length (seqZ 0 L)) * C) as Hlen.
  { induction (seqZ 0 L) as [|layer layers IH]; cbn [foldr length]; [lia|].
    specialize (Hterm layer). rewrite Nat2Z.inj_succ, Z.mul_succ_l. lia. }
  rewrite length_seqZ, Z2Nat.id in Hlen by done. done.
Qed.

(** The recurrent layers on bounded fields. *)
Lemma recurrent_returns_counts (gates : Z) (params : gmap string value)
    (I H L : Z) (b : bool) :
  1 ≤ gates ≤ 4 → 1 ≤ I ≤ 768 → 1 ≤ H ≤ 1024 → 1 ≤ L ≤ 4 →
  params !! "input_size" = Some (VNum (num I)) →
  params !! "hidden_size" = Some (VNum (num H)) →
  params !! "num_layers" = Some (VNum (num L)) →
  params !! "bidirectional" = Some (VBool b) →
  ∃ p f : Z,
    0 ≤ p ≤ 2 ^ 53 ∧ 0 ≤ f ≤ 2 ^ 53 ∧
    recurrent_calculate gates params = Some (num p) ∧
    recurrent_calculateFLOPs gates params None = Some (num f).
Proof.
  intros Hg HI1 HH1 HL1 HI HH HL Hb.
  assert (0 ≤ Spec.dir b ≤ 2) as Hd by (destruct b; simpl; lia).
  set (d := Spec.dir b) in *.
  assert (0 ≤ H * d ≤ 2048) as HHd by nia.
  assert (∀ layer, 0 ≤ Spec.layer_parameters gates I H d layer
                   ≤ 2 * 4 * (2048 * 1024 + 1024 * 1024 + 2 * 1024)) as Hp.
  { intros layer. unfold Spec.layer_parameters, Spec.layer_input_dim.
    replace (H ^ 2) with (H * H) by ring. clearbody d.
    destruct (bool_decide (layer = 0)).
    - match goal with |- 0 ≤ ?t ≤ _ => let Ht := interval t in pose proof Ht end. lia.
    - match goal with |- 0 ≤ ?t ≤ _ => let Ht := interval t in pose proof Ht end. lia. }
  assert (∀ layer, 0 ≤ Spec.layer_flops gates I H d 128 layer
                   ≤ 4 * 2 * (2048 * 1024 + 1024 * 1024) * 128 * 2) as Hf.
  { intros layer. unfold Spec.layer_flops, Spec.layer_input_dim. clearbody d.
    destruct (bool_decide (layer = 0)).
    - match goal with |- 0 ≤ ?t ≤ _ => let Ht := interval t in pose proof Ht end. lia.
    - match goal with |- 0 ≤ ?t ≤ _ => let Ht := interval t in pose proof Ht end. lia. }
  pose proof (sum_over_layers_le L _ _ Hp ltac:(lia)) as Hps.
  pose proof (sum_over_layers_le L _ _ Hf ltac:(lia)) as Hfs.
  eexists _, _. split; [|split; [|split]].
  3: apply (recurrent_calculate_sum gates params I H L b); (done || lia || idtac).
  4: apply (recurrent_calculateFLOPs_sum gates params I H L 128 b);
       (done || lia || idtac).
  all: fold d; nia.
Qed.

Lemma calculate_bounded (ty : LayerType) (params : gmap string value) :
  Descriptors.bounded ty params →
  ∃ p f : Z,
    0 ≤ p ≤ 2 ^ 53 ∧ 0 ≤ f ≤ 2 ^ 53 ∧
    calculate ty params = Some (num p) ∧
    calculateFLOPs ty params = Some (num f).
Proof.
  intros Hbounded.
  destruct ty; fields_bounded Hbounded;
    unfold calculate, calculateFLOPs, embedding.calculate, embedding.calculateFLOPs,
      linear.calculate, linear.calculateFLOPs, conv2d.calculate,
      conv2d.calculateFLOPs, transformer.calculate, transformer.calculateFLOPs,
      batchnorm.calculate, batchnorm.calculateFLOPs, dropout.calculate,
      dropout.calculateFLOPs, pool2d.calculate, pool2d.calculateFLOPs,
      layernorm.calculate, layernorm.calculateFLOPs, attention.calculate,
      attention.calculateFLOPs, relu.calculate, relu.calculateFLOPs,
      softmax.calculate, softmax.calculateFLOPs, lstm.calculate,
      lstm.calculateFLOPs, gru.calculate, gru.calculateFLOPs, default;
    cbv zeta; read_fields.
  all: try (match goal with
            | b : bool |- context [if ?b' then _ else _] => destruct b
            end).
  all: try rewrite floor_div_num by lia.
  all: js_interval.
  all: try (eexists _, _; split; [|split; [|split; reflexivity]];
            match goal with
            | |- 0 ≤ ?t ≤ _ => let Ht := interval t in pose proof Ht
            end; lia).
  all: try (exists 0, 0; done).
  all: by apply (recurrent_returns_counts _ params x x0 x1 x2).
Qed.

(** On a bounded configuration (every field in order and within its
    limit: the largest option of a select box, 2^32 for a number input),
    the two formulas of every layer type return, and return integers
    that are not negative and below 2^53, where doubles are exact. *)
Theorem registry_returns_counts (ty : LayerType) (params : gmap string value) :
  Descriptors.bounded ty params →
  ∃ p f : Z,
    0 ≤ p ≤ 2 ^ 53 ∧ 0 ≤ f ≤ 2 ^ 53 ∧
    calculate ty params = Some (num p) ∧
    calculateFLOPs ty params = Some (num f).
Proof. apply calculate_bounded. Qed.

(** The default configuration of every layer type is bounded. *)
Lemma defaultParams_bounded (ty : LayerType) :
  Descriptors.bounded ty (Descriptors.defaultParams ty).
Proof.
  destruct ty; repeat constructor;
    unfold Descriptors.field_bounded, Descriptors.limit; simpl;
    solve [ eexists; split; [|reflexivity]; lia | eexists; reflexivity ].
Qed.

Lemma registry_returns_counts_witness :
  ∃ p f : Z,
    0 ≤ p ≤ 2 ^ 53 ∧ 0 ≤ f ≤ 2 ^ 53 ∧
    calculate Conv2d (Descriptors.defaultParams Conv2d) = Some (num p) ∧
    calculateFLOPs Conv2d (Descriptors.defaultParams Conv2d) = Some (num f).
Proof.
  apply (registry_returns_counts Conv2d (Descriptors.defaultParams Conv2d)).
  repeat constructor; unfold Descriptors.field_bounded, Descriptors.limit; simpl;
    solve [ eexists; split; [|reflexivity]; lia | eexists; reflexivity ].
Defined.

(** Beyond the limits the counts need not be finite: an embedding with
    a vocabulary of 2^1000 and 2^30 dimensions has [Infinity]
    parameters. *)
Lemma embedding_overflow :
  embedding.calculate
    {[ "vocab_size" := VNum (num (2 ^ 1000)); "embedding_dim" := VNum (num (2 ^ 30)) ]}
  = PosInf.
Proof. by vm_compute. Qed.

(** ** The state updates keep configurations in order *)

(** The default configuration of every layer type is in order. *)
Lemma defaultParams_in_order (ty : LayerType) :
  Descriptors.in_order ty (Descriptors.defaultParams ty).
Proof.
  destruct ty; repeat constructor; unfold Descriptors.field_in_order; simpl;
    solve [ eexists; split; [|reflexivity]; lia | eexists; reflexivity ].
Qed.

(** Within a layer type, a key names one field. *)
Lemma fields_key_inj (ty : LayerType) (f g : Descriptors.Field) :
  f ∈ Descriptors.fields ty → g ∈ Descriptors.fields ty →
  Descriptors.key f = Descriptors.key g → f = g.
Proof.
  destruct ty; unfold Descriptors.fields; set_unfold;
    intros Hf Hg; destruct_or!; subst; simpl; try done; discriminate.
Qed.

(** The value stored for an input of a field keeps the field in order. *)
Lemma validatedValue_in_order (f : Descriptors.Field) (v : value)
    (params : gmap string value) :
  Descriptors.is_input f v →
  Descriptors.field_in_order
    (<[Descriptors.key f := validatedValue (Descriptors.key f) v]> params) f.
Proof.
  unfold Descriptors.is_input, Descriptors.field_in_order, validatedValue.
  rewrite lookup_insert_eq.
  destruct (Descriptors.type f).
  1,2: intros [q ->]; cbn [is_number ToNumber andb]; case_bool_decide as Hrate;
    [ rewrite bool_decide_eq_false_2 by auto; eauto
    | rewrite bool_decide_eq_true_2 by auto; rewrite max_1_floor;
      eexists; split; [|reflexivity]; lia ].
  intros [b ->]. simpl. eauto.
Qed.

(** Every state update keeps the configurations of all layers in order:
    adding a layer, deleting layers, moving a layer, and storing what the
    input of a field passes (a checkbox its state, the others a finite
    number, whatever was typed) in the layers the field belongs to. *)
Theorem state_updates_keep_in_order (prev : list Layer) :
  Forall (λ layer, Descriptors.in_order (type layer) (params layer)) prev →
  (∀ (newId : number) (ty : LayerType),
     Forall (λ layer, Descriptors.in_order (type layer) (params layer))
       (addLayer newId ty prev)) ∧
  (∀ id0 : number,
     Forall (λ layer, Descriptors.in_order (type layer) (params layer))
       (deleteLayer id0 prev)) ∧
  (∀ (draggedIndex index : nat) (next : list Layer),
     moveLayer draggedIndex index prev = Some next →
     Forall (λ layer, Descriptors.in_order (type layer) (params layer)) next) ∧
  (∀ (id0 : number) (f : Descriptors.Field) (v : value),
     (∀ layer, layer ∈ prev → strict_eq (id layer) id0 = true →
        f ∈ Descriptors.fields (type layer)) →
     Descriptors.is_input f v →
     Forall (λ layer, Descriptors.in_order (type layer) (params layer))
       (updateLayerParam id0 (Descriptors.key f) v prev)).
Proof.
  intros Hprev. split; [|split; [|split]].
  - intros newId ty. apply Forall_app. split; [done|].
    repeat constructor. apply defaultParams_in_order.
  - intros id0. by apply Forall_filter_keep.
  - intros d i next Hnext. unfold moveLayer in Hnext.
    destruct (prev !! d) as [x|] eqn:Hx; simplify_eq/=.
    rewrite splice_in_Permutation. by rewrite <-delete_Permutation.
  - intros id0 f v Hfield Hinput. unfold updateLayerParam.
    apply Forall_fmap. rewrite Forall_forall in Hprev.
    apply Forall_forall. intros layer Hin. simpl.
    destruct (strict_eq (id layer) id0) eqn:Hid; simpl; [|by apply Hprev].
    specialize (Hfield layer Hin Hid). specialize (Hprev layer Hin).
    unfold Descriptors.in_order in *. rewrite Forall_forall in Hprev.
    apply Forall_forall. intros g Hg.
    destruct (decide (Descriptors.key f = Descriptors.key g)) as [Hkey|Hkey].
    + rewrite <-(fields_key_inj _ f g Hfield Hg Hkey).
      by apply validatedValue_in_order.
    + specialize (Hprev g Hg). unfold Descriptors.field_in_order in *.
      by rewrite lookup_insert_ne.
Qed.

Lemma state_updates_keep_in_order_witness :
  (∀ (newId : number) (ty : LayerType),
     Forall (λ layer, Descriptors.in_order (type layer) (params layer))
       (addLayer newId ty four_layers)) ∧
  (∀ id0 : number,
     Forall (λ layer, Descriptors.in_order (type layer) (params layer))
       (deleteLayer id0 four_layers)) ∧
  (∀ (draggedIndex index : nat) (next : list Layer),
     moveLayer draggedIndex index four_layers = Some next →
     Forall (λ layer, Descriptors.in_order (type layer) (params layer)) next) ∧
  (∀ (id0 : number) (f : Descriptors.Field) (v : value),
     (∀ layer, layer ∈ four_layers → strict_eq (id layer) id0 = true →
        f ∈ Descriptors.fields (type layer)) →
     Descriptors.is_input f v →
     Forall (λ layer, Descriptors.in_order (type layer) (params layer))
       (updateLayerParam id0 (Descriptors.key f) v four_layers)).
Proof.
  apply (state_updates_keep_in_order four_layers).
  repeat (apply Forall_cons_2; [apply defaultParams_in_order|]).
  apply Forall_nil_2.
Defined.

(** ** The totals of a model in order *)

Lemma sum_of_member (f : Layer → option number) (modelLayers : list Layer) :
  all_counts f modelLayers = true →
  Forall (λ layer, ∃ p : Z, f layer = Some (num p) ∧ 0 ≤ p ≤ sum_of f modelLayers)
    modelLayers.
Proof.
  rewrite all_counts_Forall.
  induction 1 as [|layer ls (p & Hp & Hf) Hls IH]; [constructor|].
  apply all_counts_Forall in Hls. pose proof (sum_of_nonneg f ls Hls).
  cbn [sum_of foldr]. fold (sum_of f ls). rewrite Hf, count_of_num.
  constructor; [exists p; split; [done|lia]|].
  eapply Forall_impl; [exact IH|]. simpl.
  intros l (q & Hq & Hq0). exists q. split; [done|lia].
Qed.

(** When all layers of a model are bounded, and the sums of their
    parameters and of their FLOPs are at most 2^53, the total of
    parameters and the total of FLOPs return and are integers that are
    not negative, and no layer has more parameters than the total: the
    shares of the layer distribution lie between 0 and 100 per cent. *)
Theorem totals_of_model_in_order (modelLayers : list Layer) :
  Forall (λ layer, Descriptors.bounded (type layer) (params layer)) modelLayers →
  sum_of layerParams modelLayers ≤ 2 ^ 53 →
  sum_of layerFLOPs modelLayers ≤ 2 ^ 53 →
  ∃ t f : Z,
    0 ≤ t ∧ 0 ≤ f ∧
    totalParams modelLayers = Some (num t) ∧
    totalFLOPs modelLayers = Some (num f) ∧
    Forall (λ layer, ∃ p : Z, layerParams layer = Some (num p) ∧ 0 ≤ p ≤ t)
      modelLayers.
Proof.
  intros Hbounded Hpsum Hfsum.
  assert (all_counts layerParams modelLayers = true) as Hp.
  { apply all_counts_Forall. eapply Forall_impl; [exact Hbounded|]. simpl.
    intros layer Hl.
    destruct (calculate_bounded _ _ Hl) as (p & f & ? & ? & ? & ?).
    exists p. split; [lia|done]. }
  assert (all_counts layerFLOPs modelLayers = true) as Hf.
  { apply all_counts_Forall. eapply Forall_impl; [exact Hbounded|]. simpl.
    intros layer Hl.
    destruct (calculate_bounded _ _ Hl) as (p & f & ? & ? & ? & ?).
    exists f. split; [lia|done]. }
  exists (sum_of layerParams modelLayers), (sum_of layerFLOPs modelLayers).
  split; [by apply sum_of_nonneg|]. split; [by apply sum_of_nonneg|].
  split; [by apply reduction_sum|]. split; [by apply (reduction_sum layerFLOPs)|].
  by apply sum_of_member.
Qed.

Lemma totals_of_model_in_order_witness :
  ∃ t f : Z,
    0 ≤ t ∧ 0 ≤ f ∧
    totalParams four_layers = Some (num t) ∧
    totalFLOPs four_layers = Some (num f) ∧
    Forall (λ layer, ∃ p : Z, layerParams layer = Some (num p) ∧ 0 ≤ p ≤ t)
      four_layers.
Proof.
  apply (totals_of_model_in_order four_layers).
  - repeat (apply Forall_cons_2; [apply defaultParams_bounded|]).
    apply Forall_nil_2.
  - vm_compute. discriminate.
  - vm_compute. discriminate.
Defined.

(** * The memory estimate across precisions *)

Lemma scale_inf_pos (pos : bool) (z : Z) :
  0 < z → scale_inf pos (Qc_of_Z z) = if pos then PosInf else NegInf.
Proof.
  intros Hz. unfold scale_inf.
  assert (Qc_of_Z z ≠ 0%Qc) as Hne.
  { rewrite <-Z2Qc_inj_0. intros H. apply Z2Qc_inj in H. lia. }
  assert (0 < Qc_of_Z z)%Qc as Hpos.
  { rewrite <-Z2Qc_inj_0. by rewrite <-Z2Qc_inj_lt. }
  by rewrite decide_False, decide_True.
Qed.

(** A double that is out of range is rounded to an infinity. *)
Lemma round_double_cases (d : Qc) :
  is_double d →
  round d = if decide (in_range d) then Fin d
            else if decide (0 < d)%Qc then PosInf else NegInf.
Proof.
  intros Hd. case_decide as Hr; [by apply round_double|].
  pose proof (pow2_pos 1024) as Hp.
  case_decide as Hpos.
  - rewrite round_pos, nearest_double by done. rewrite decide_False; [done|].
    intros Hlt. apply Hr. split; [|done]. qc_lra.
  - assert (d < 0)%Qc as Hneg.
    { apply Qcnot_le_lt. intros Hle. apply Hr. split; qc_lra. }
    rewrite round_neg, nearest_double by auto using is_double_opp, Qcopp_lt_0.
    rewrite decide_False; [done|]. intros Hlt. apply Hr. split; qc_lra.
Qed.

Lemma double_Fin_inv (a : number) (d : Qc) :
  double a = Fin d → is_double d ∧ in_range d.
Proof. destruct a as [q| | |]; try done. apply round_is_double. Qed.

(** The product of a number and a power of two. *)
Lemma mul_pow2 (a : number) (j : Z) :
  0 ≤ j ≤ 53 →
  (a * num (2 ^ j))%js
  = match double a with
    | Fin d => round (d * pow2 j)
    | other => other
    end.
Proof.
  intros Hj. unfold mul.
  assert (0 < 2 ^ j ≤ 2 ^ 53) as Hpow.
  { split; [lia|]. apply Z.pow_le_mono_r; lia. }
  rewrite (double_num (2 ^ j)) by lia.
  destruct (double a) as [d| | |]; try done; unfold num.
  - by rewrite pow2_nonneg by lia.
  - by rewrite scale_inf_pos by lia.
  - by rewrite scale_inf_pos by lia.
Qed.

(** Multiplying by two powers of two, one after the other, is
    multiplying by their product: no rounding occurs, and an overflow
    occurs in the one exactly when it occurs in the other. *)
Lemma mul_pow2_assoc (t : number) (i j : Z) :
  0 ≤ i → 0 ≤ j → i + j ≤ 53 →
  (t * num (2 ^ i) * num (2 ^ j))%js = (t * num (2 ^ (i + j)))%js.
Proof.
  intros Hi Hj Hij. rewrite !mul_pow2 by lia.
  destruct (double t) as [d| | |] eqn:Ht; try done.
  destruct (double_Fin_inv _ _ Ht) as [Hd Hr]. rewrite double_round.
  pose proof (pow2_pos 1024) as Hp.
  assert (1 ≤ pow2 j)%Qc as Hj1.
  { rewrite <-pow2_0. by apply pow2_le. }
  pose proof (pow2_pos i) as Hi0.
  rewrite (round_double_cases (d * pow2 i)) by (by apply is_double_scale).
  rewrite (round_double_cases (d * pow2 (i + j))) by (apply is_double_scale; [done|lia]).
  rewrite pow2_add, Qcmult_assoc.
  case_decide as Hri.
  - rewrite (round_double_cases (d * pow2 i * pow2 j))
      by (apply is_double_scale; [by apply is_double_scale|done]).
    done.
  - assert (¬ in_range (d * pow2 i * pow2 j)) as Hrij.
    { intros [H1 H2]. apply Hri. unfold in_range in *.
      set (x := (d * pow2 i)%Qc) in *. set (p := pow2 j) in *.
      set (m := pow2 1024) in *. clearbody x p m.
      destruct (decide (0 ≤ x)%Qc).
      - split; qc_to_q; nra.
      - split; qc_to_q; nra. }
    destruct (decide (in_range (d * pow2 i * pow2 j))) as [?|_]; [done|].
    assert ((0 < d * pow2 i)%Qc ↔ (0 < d * pow2 i * pow2 j)%Qc) as Hsign.
    { set (x := (d * pow2 i)%Qc) in *. set (p := pow2 j) in *. clearbody x p.
      split; intros; qc_to_q; nra. }
    destruct (decide (0 < d * pow2 i)%Qc) as [Hpos|Hneg].
    + by rewrite decide_True by (by apply Hsign).
    + by rewrite decide_False by (by rewrite <-Hsign).
Qed.

(** In either mode and for every total, the estimate at 32 bits is twice
    the one at 16 bits (fp16 or bf16) and four times the one at 8 bits;
    a precision left out counts as fp32 and a mode left out as
    inference. *)
Theorem calculateMemory_precisions (totalParams : number) (mode : option string) :
  calculateMemory totalParams mode (Some "fp32"%string)
  = (num 2 * calculateMemory totalParams mode (Some "fp16"%string))%js ∧
  calculateMemory totalParams mode (Some "fp32"%string)
  = (num 4 * calculateMemory totalParams mode (Some "int8"%string))%js ∧
  calculateMemory totalParams mode (Some "bf16"%string)
  = calculateMemory totalParams mode (Some "fp16"%string) ∧
  calculateMemory totalParams mode None
  = calculateMemory totalParams mode (Some "fp32"%string) ∧
  calculateMemory totalParams None (Some "fp32"%string)
  = calculateMemory totalParams (Some "inference"%string) (Some "fp32"%string).
Proof.
  destruct bytes_table as (H32 & H16 & Hbf & H8).
  unfold calculateMemory, default_string. rewrite H32, H16, Hbf, H8. simpl.
  rewrite !(mul_comm (num 2)), !(mul_comm (num 4)).
  change (num 4) with (num (2 ^ 2)). change (num 2) with (num (2 ^ 1)).
  change (num 1) with (num (2 ^ 0)).
  repeat split; case_bool_decide; by rewrite !mul_pow2_assoc by lia.
Qed.

(** * The settings kept in the browser *)

Section StorageProperties.
Import Storage.

Variable fits : gmap string string → bool.

Lemma setItem_saved (key value : string) (ls : localStorage) :
  (setItem fits key value ls).1 = true →
  ∀ d, getItem key d (setItem fits key value ls).2 = Some value.
Proof.
  unfold setItem, getItem, native_setItem, native_getItem.
  destruct ls as [|items]; simpl; [done|].
  destruct (fits (<[key:=value]> items)); simpl; [|done].
  intros _ d. by rewrite lookup_insert_eq.
Qed.

(** An item that [setItem] reports as saved is what [getItem] returns
    for its key, whatever the default, and no other key changes; when
    [setItem] reports a failure the storage is as before.  With a
    blocked storage every [setItem] fails and every [getItem] returns its
    default. *)
Theorem safeLocalStorage_setItem_getItem (key value : string) (ls : localStorage) :
  ((setItem fits key value ls).1 = true →
     (∀ d, getItem key d (setItem fits key value ls).2 = Some value) ∧
     (∀ k d, k ≠ key →
        getItem k d (setItem fits key value ls).2 = getItem k d ls)) ∧
  ((setItem fits key value ls).1 = false → (setItem fits key value ls).2 = ls) ∧
  (ls = Blocked →
     (setItem fits key value ls).1 = false ∧ ∀ k d, getItem k d ls = d).
Proof.
  unfold setItem, getItem, native_setItem, native_getItem.
  destruct ls as [|items]; simpl.
  - repeat split; done.
  - destruct (fits (<[key:=value]> items)); simpl; repeat split; try done.
    + intros d. by rewrite lookup_insert_eq.
    + intros k d Hk. by rewrite lookup_insert_ne.
Qed.

(** The storage after [isAvailable()] holds what it held before, except
    that an item under the key of the test is gone; the answer is yes
    exactly when the storage is not blocked and accepts the test item. *)
Theorem isAvailable_spec (ls : localStorage) :
  (∀ k d, k ≠ "__localStorage_test__"%string →
     getItem k d (isAvailable fits ls).2 = getItem k d ls) ∧
  ((isAvailable fits ls).1 = true →
     getItem "__localStorage_test__" None (isAvailable fits ls).2 = None) ∧
  ((isAvailable fits ls).1 = true
   ↔ ∃ items, ls = Items items ∧ fits (<["__localStorage_test__" := "test"]> items) = true).
Proof.
  unfold isAvailable, getItem, native_setItem, native_removeItem, native_getItem.
  destruct ls as [|items]; simpl.
  - repeat split; try done. by intros (items & ? & _).
  - destruct (fits _) eqn:Hfits; simpl; repeat split; try done.
    + intros k d Hk. by rewrite lookup_delete_ne, lookup_insert_ne.
    + intros _. by rewrite lookup_delete_eq.
    + intros _. by exists items.
    + intros (items' & [= <-] & Hfits'). congruence.
Qed.

(** After a toggle that could be saved, the next start is in the new
    mode, whatever the system prefers; without a saved setting, and with
    a blocked storage even after a toggle, the start follows the system. *)
Theorem darkMode_persists (prev system : bool) (ls : localStorage) :
  (handleDarkModeToggle fits prev ls).1 = negb prev ∧
  ((setItem fits "layercal-darkmode" (String_of_bool (negb prev)) ls).1 = true →
     initialDarkMode system (handleDarkModeToggle fits prev ls).2 = negb prev) ∧
  (getItem "layercal-darkmode" None ls = None →
     initialDarkMode system ls = system) ∧
  (ls = Blocked →
     initialDarkMode system (handleDarkModeToggle fits prev ls).2 = system).
Proof.
  split; [done|]. split; [|split].
  - intros Hsaved. unfold handleDarkModeToggle, initialDarkMode. simpl.
    rewrite setItem_saved by done. by destruct prev.
  - unfold initialDarkMode. by intros ->.
  - by intros ->.
Qed.

(** A language that could be saved is the language of the next start;
    there is always a language, English when none is saved or the storage
    is blocked. *)
Theorem language_persists (newLang : string) (ls : localStorage) :
  (handleLanguageChange fits newLang ls).1 = newLang ∧
  ((setItem fits "layercal-language" newLang ls).1 = true →
     initialLanguage (handleLanguageChange fits newLang ls).2 = Some newLang) ∧
  (∃ lang, initialLanguage ls = Some lang) ∧
  (getItem "layercal-language" None ls = None →
     initialLanguage ls = Some "en"%string).
Proof.
  split; [done|]. split; [|split].
  - intros Hsaved. unfold handleLanguageChange, initialLanguage. simpl.
    by rewrite setItem_saved.
  - unfold initialLanguage, getItem.
    destruct (native_getItem _ ls) as [[item|]|]; eauto.
  - unfold initialLanguage, getItem.
    by destruct (native_getItem _ ls) as [[item|]|].
Qed.

End StorageProperties.

Lemma safeLocalStorage_setItem_getItem_witness :
  (∀ d, Storage.getItem "layercal-language" d
          (Storage.setItem (λ _, true) "layercal-language" "ko"
             (Storage.Items ∅)).2
        = Some "ko"%string) ∧
  (∀ k d, k ≠ "layercal-language"%string →
     Storage.getItem k d
       (Storage.setItem (λ _, true) "layercal-language" "ko" (Storage.Items ∅)).2
     = Storage.getItem k d (Storage.Items ∅)).
Proof.
  destruct (safeLocalStorage_setItem_getItem (λ _, true) "layercal-language" "ko"
              (Storage.Items ∅)) as [Hsaved _].
  apply Hsaved. reflexivity.
Defined.

Lemma isAvailable_spec_witness :
  Storage.getItem "__localStorage_test__" None
    (Storage.isAvailable (λ _, true)
       (Storage.Items {[ "__localStorage_test__" := "kept" ]})).2 = None.
Proof.
  destruct (isAvailable_spec (λ _, true)
              (Storage.Items {[ "__localStorage_test__" := "kept" ]}))
    as (_ & Hgone & _).
  apply Hgone. reflexivity.
Defined.

Lemma darkMode_persists_witness :
  Storage.initialDarkMode false
    (Storage.handleDarkModeToggle (λ _, true) false (Storage.Items ∅)).2 = true.
Proof.
  destruct (darkMode_persists (λ _, true) false false (Storage.Items ∅))
    as (_ & Hsaved & _).
  apply Hsaved. reflexivity.
Defined.

Lemma language_persists_witness :
  Storage.initialLanguage
    (Storage.handleLanguageChange (λ _, true) "ja" (Storage.Items ∅)).2
  = Some "ja"%string.
Proof.
  destruct (language_persists (λ _, true) "ja" (Storage.Items ∅))
    as (_ & Hsaved & _).
  apply Hsaved. reflexivity.
Defined.

(** * The display of numbers *)

Section FormatProperties.
Import Format.

Variable other_digits : Qc → string.

Lemma ge_num (a b : Z) : ge (num a) (num b) = bool_decide (b ≤ a).
Proof.
  change (ge (num a) (num b)) with (negb (lt (num a) (num b))). rewrite lt_num.
  destruct (decide (b ≤ a)).
  - by rewrite bool_decide_eq_false_2, bool_decide_eq_true_2 by lia.
  - by rewrite bool_decide_eq_true_2, bool_decide_eq_false_2 by lia.
Qed.

Lemma ToString_num (n : Z) :
  Z.abs n < 2 ^ 53 → ToString other_digits (num n) = pretty n.
Proof.
  intros Hn. unfold ToString, num, plain_integer. simpl.
  rewrite Z.div_1_r. by rewrite !bool_decide_eq_true_2.
Qed.

(** An integer quotient to two decimals.  The quotient the code forms is
    a double beside the exact quotient, by less than the reciprocal of
    the unit; the exact quotient is a whole number of hundredths of the
    unit's two-hundredth part, so off a tie the two round alike. *)
Lemma toFixed2_ratio (n unit : Z) :
  1 ≤ unit ≤ n → n < 2 ^ 53 → unit `mod` 200 = 0 →
  (200 * n + unit) `mod` (2 * unit) ≠ 0 →
  toFixed2 other_digits (num n / num unit)%js
  = hundredths (nearest_hundredth n unit).
Proof.
  intros Hunit Hn H200 Htie.
  destruct (div_num_error n unit) as (y & Hy & Hlo & Hhi); [lia..|].
  rewrite Hy. clear Hy.
  set (m := nearest_hundredth n unit).
  assert (2 * unit * m ≤ 200 * (n - 1) + unit
          ∧ 200 * (n + 1) + unit ≤ 2 * unit * (m + 1)) as [Hm1 Hm2].
  { subst m. unfold nearest_hundredth.
    pose proof (Z.div_mod (200 * n + unit) (2 * unit) ltac:(lia)) as Hdiv.
    pose proof (Z.mod_pos_bound (200 * n + unit) (2 * unit) ltac:(lia)) as Hmod.
    apply Z.mod_divide in H200 as [k Hk]; [|lia].
    assert ((200 * n + unit) `mod` (2 * unit)
            = 200 * ((n + k) `mod` (2 * k))) as Hr.
    { replace (200 * n + unit) with (200 * (n + k)) by lia.
      replace (2 * unit) with (200 * (2 * k)) by lia.
      apply Z.mul_mod_distr_l; lia. }
    pose proof (Z.mod_pos_bound (n + k) (2 * k) ltac:(lia)) as Hmod'.
    set (r := (n + k) `mod` (2 * k)) in *.
    set (q := (200 * n + unit) `div` (2 * unit)) in *.
    assert (r ≠ 0) by (intros E; apply Htie; rewrite Hr, E; lia).
    rewrite Hr in Hdiv. clearbody q r. clear Htie Hmod Hr. lia. }
  apply Z2Qc_inj_le in Hm1, Hm2.
  rewrite Z2Qc_inj_add, !Z2Qc_inj_mul, Z2Qc_inj_sub in Hm1.
  rewrite Z2Qc_inj_add, !Z2Qc_inj_mul, !Z2Qc_inj_add in Hm2.
  rewrite Z2Qc_inj_sub in Hlo. rewrite Z2Qc_inj_add in Hhi.
  assert (0 < Qc_of_Z unit)%Qc as Hu by (apply Z2Qc_pos; lia).
  assert (Qc_of_Z 1 ≤ Qc_of_Z unit)%Qc as Hu1 by (rewrite <-Z2Qc_inj_le; lia).
  assert (Qc_of_Z 1 ≤ Qc_of_Z n)%Qc as Hn1 by (rewrite <-Z2Qc_inj_le; lia).
  assert (Qc_of_Z n < Qc_of_Z 9007199254740992)%Qc as Hn53
    by (by rewrite <-Z2Qc_inj_lt).
  assert (Qfloor (y * Qc_of_Z 100 + Q2Qc (1 # 2))%Qc = m) as Hfloor.
  { apply Qfloor_unique. rewrite Z2Qc_inj_add.
    set (N := Qc_of_Z n) in *. set (U := Qc_of_Z unit) in *.
    set (M := Qc_of_Z m) in *. clearbody N U M. clear Hn53 Hn1 Hu1.
    split; qc_to_q; cbv [inject_Z] in *; nra. }
  unfold toFixed2. cbv zeta.
  destruct (decide (y < 0)%Qc) as [Hneg|_].
  { exfalso. set (N := Qc_of_Z n) in *. set (U := Qc_of_Z unit) in *. clearbody N U.
    clear Hfloor Hm1 Hm2 Hhi Hn53. qc_to_q; cbv [inject_Z] in *; nra. }
  rewrite decide_False; [by rewrite Hfloor|].
  change (10 ^ 21) with 1000000000000000000000.
  set (N := Qc_of_Z n) in *. set (U := Qc_of_Z unit) in *. clearbody N U.
  clear Hfloor Hm1 Hm2 Hlo. intros Hbig. qc_to_q; cbv [inject_Z] in *; nra.
Qed.
End FormatProperties.

Section FormatTheorems.
Import Format.

Variable other_digits : Qc → string.

(** An integer below a thousand is shown as it is, by [formatNumber]
    without a unit and by [formatBytes] with [" B"]; that includes every
    negative integer, however large its magnitude (below 2^53). *)
Theorem format_small (n : Z) :
  - 2 ^ 53 < n < 1000 →
  formatNumber other_digits (num n) = pretty n ∧
  formatBytes other_digits (num n) = (pretty n +:+ " B")%string.
Proof.
  intros Hn. unfold formatNumber, formatBytes. rewrite !ge_num.
  rewrite !bool_decide_eq_false_2 by lia.
  by rewrite ToString_num by lia.
Qed.

(** From a thousand on, [formatNumber] shows an integer (a double, so
    below 2^53) in the largest of the units K, M, G and T that it reaches,
    as the nearest number of hundredths of the unit; so at least 1.00 is
    shown.  On a tie between two hundredths the quotient the code forms
    lies beside the tie, and this says nothing. *)
Theorem formatNumber_units (n unit : Z) (suffix : string) :
  1000 ≤ n < 2 ^ 53 →
  (unit, suffix) ∈ [(10 ^ 12, "T"); (10 ^ 9, "G"); (10 ^ 6, "M"); (10 ^ 3, "K")]%string →
  unit ≤ n →
  n < 1000 * unit ∨ suffix = "T"%string →
  (200 * n + unit) `mod` (2 * unit) ≠ 0 →
  formatNumber other_digits (num n)
  = (hundredths (nearest_hundredth n unit) +:+ suffix)%string ∧
  100 ≤ nearest_hundredth n unit.
Proof.
  intros Hn Hunit Hle Hlt Htie. split.
  - unfold formatNumber. rewrite !ge_num. set_unfold in Hunit.
    destruct Hlt as [Hlt|Hs]; destruct_or!; simplify_eq.
    all: repeat (rewrite bool_decide_eq_false_2 by lia).
    all: rewrite bool_decide_eq_true_2 by lia.
    all: by rewrite toFixed2_ratio by (lia || done).
  - unfold nearest_hundredth. set_unfold in Hunit.
    destruct_or!; simplify_eq; apply Z.div_le_lower_bound; lia.
Qed.

(** [formatBytes] does the same with the units KB, MB and GB. *)
Theorem formatBytes_units (n unit : Z) (suffix : string) :
  1000 ≤ n < 2 ^ 53 →
  (unit, suffix) ∈ [(10 ^ 9, " GB"); (10 ^ 6, " MB"); (10 ^ 3, " KB")]%string →
  unit ≤ n →
  n < 1000 * unit ∨ suffix = " GB"%string →
  (200 * n + unit) `mod` (2 * unit) ≠ 0 →
  formatBytes other_digits (num n)
  = (hundredths (nearest_hundredth n unit) +:+ suffix)%string ∧
  100 ≤ nearest_hundredth n unit.
Proof.
  intros Hn Hunit Hle Hlt Htie. split.
  - unfold formatBytes. rewrite !ge_num. set_unfold in Hunit.
    destruct Hlt as [Hlt|Hs]; destruct_or!; simplify_eq.
    all: repeat (rewrite bool_decide_eq_false_2 by lia).
    all: rewrite bool_decide_eq_true_2 by lia.
    all: by rewrite toFixed2_ratio by (lia || done).
  - unfold nearest_hundredth. set_unfold in Hunit.
    destruct_or!; simplify_eq; apply Z.div_le_lower_bound; lia.
Qed.

End FormatTheorems.

Lemma format_small_witness :
  Format.formatNumber (λ _, ""%string) (num (-5000000)) = pretty (-5000000) ∧
  Format.formatBytes (λ _, ""%string) (num (-5000000))
  = (pretty (-5000000) +:+ " B")%string.
Proof. apply (format_small (λ _, ""%string) (-5000000)). lia. Defined.

Lemma formatNumber_units_witness :
  Format.formatNumber (λ _, ""%string) (num 3152384)
  = (Format.hundredths (Format.nearest_hundredth 3152384 (10 ^ 6)) +:+ "M")%string ∧
  100 ≤ Format.nearest_hundredth 3152384 (10 ^ 6).
Proof.
  apply (formatNumber_units (λ _, ""%string) 3152384 (10 ^ 6) "M").
  - lia.
  - set_solver.
  - lia.
  - left. lia.
  - discriminate.
Defined.

Lemma formatBytes_units_witness :
  Format.formatBytes (λ _, ""%string) (num 4000000000)
  = (Format.hundredths (Format.nearest_hundredth 4000000000 (10 ^ 9)) +:+ " GB")%string ∧
  100 ≤ Format.nearest_hundredth 4000000000 (10 ^ 9).
Proof.
  apply (formatBytes_units (λ _, ""%string) 4000000000 (10 ^ 9) " GB").
  - lia.
  - set_solver.
  - lia.
  - by right.
  - discriminate.
Defined.

(** What the tests of the repository expect of the two displays. *)
Lemma format_examples :
  Format.formatNumber (λ _, ""%string) (num 999) = "999"%string ∧
  Format.formatNumber (λ _, ""%string) (num 1500) = "1.50K"%string ∧
  Format.formatNumber (λ _, ""%string) (num 3152384) = "3.15M"%string ∧
  Format.formatNumber (λ _, ""%string) (num 1500000000) = "1.50G"%string ∧
  Format.formatNumber (λ _, ""%string) (num 2000000000000) = "2.00T"%string ∧
  Format.formatBytes (λ _, ""%string) (num 512) = "512 B"%string ∧
  Format.formatBytes (λ _, ""%string) (num 4000) = "4.00 KB"%string ∧
  Format.formatBytes (λ _, ""%string) (num 4000000) = "4.00 MB"%string ∧
  Format.formatBytes (λ _, ""%string) (num 4000000000) = "4.00 GB"%string.
Proof. repeat split; vm_compute; reflexivity. Qed.

(** * Pooling and model size *)

(** The FLOPs of a pooling layer count every input position that a
    window covers once per channel: with kernel [k], [c] channels and
    input size [s] they are [c * (s / k)^2 * k^2], at most [c * s^2], and
    exactly that when [k] divides [s].  Left out, [c] is 64 and [s] is
    224.  The kernel is no larger than the input, there is a channel, and
    [c * s^2] is at most 2^53. *)
Theorem pool2d_flops_bound (params : gmap string value) (k c s : Z)
    (channels inputSize : option number) :
  params !! "kernel_size" = Some (VNum (num k)) →
  default channels 64 = num c →
  default inputSize 224 = num s →
  1 ≤ k ≤ s → 1 ≤ c → c * s ^ 2 ≤ 2 ^ 53 →
  pool2d.calculateFLOPs params channels inputSize
  = num (c * (s / k) ^ 2 * k ^ 2) ∧
  c * (s / k) ^ 2 * k ^ 2 ≤ c * s ^ 2 ∧
  (s `mod` k = 0 → c * (s / k) ^ 2 * k ^ 2 = c * s ^ 2).
Proof.
  intros Hk Hc Hs Hk1 Hc1 Hbound.
  pose proof (Z.mul_div_le s k ltac:(lia)) as Hle.
  assert (1 ≤ s / k) as Ho by (apply Z.div_le_lower_bound; lia).
  assert (c * (s / k) ^ 2 * k ^ 2 ≤ c * s ^ 2) as Hflops.
  { replace (c * (s / k) ^ 2 * k ^ 2) with (c * (k * (s / k)) ^ 2) by ring.
    apply Z.mul_le_mono_nonneg_l; [lia|]. apply Z.pow_le_mono_l. nia. }
  split; [|split; [done|]].
  - unfold pool2d.calculateFLOPs. rewrite Hc, Hs. cbv zeta. read_fields.
    assert (s ≤ s * s) by nia.
    assert (s * s ≤ c * (s * s)) by nia.
    rewrite floor_div_num by lia.
    set (o := s / k) in *. clearbody o.
    assert (o ≤ s) by nia.
    assert (c ≤ c * o ∧ c * o ≤ c * o * o ∧ c * o * o ≤ c * o * o * k
            ∧ c * o * o * k ≤ c * o * o * k * k) as (? & ? & ? & ?) by nia.
    assert (c * o * o * k * k ≤ 2 ^ 53) by lia.
    js_exact. f_equal. ring.
  - intros Hmod. replace (c * (s / k) ^ 2 * k ^ 2) with (c * (k * (s / k)) ^ 2) by ring.
    rewrite <-(Z_div_exact_full_2 s k) by lia. done.
Qed.

Lemma pool2d_flops_bound_witness :
  pool2d.calculateFLOPs (Descriptors.defaultParams Maxpool2d) None None
  = num (64 * (224 / 2) ^ 2 * 2 ^ 2) ∧
  64 * (224 / 2) ^ 2 * 2 ^ 2 ≤ 64 * 224 ^ 2 ∧
  (224 `mod` 2 = 0 → 64 * (224 / 2) ^ 2 * 2 ^ 2 = 64 * 224 ^ 2).
Proof.
  apply (pool2d_flops_bound (Descriptors.defaultParams Maxpool2d) 2 64 224 None None);
    (reflexivity || lia).
Defined.

(** Beyond 2^53 the quotient is rounded before the floor is taken: for
    an input size of 5 * 2^52 + 4 and a kernel of 5 the code takes
    2^52 + 1 for the output size, one more than the integer quotient. *)
Lemma pool2d_quotient_rounded :
  Math_floor (num (5 * 2 ^ 52 + 4) / num 5)%js = num (2 ^ 52 + 1) ∧
  (5 * 2 ^ 52 + 4) / 5 = 2 ^ 52.
Proof. split; [closed_number|reflexivity]. Qed.

(** A power of two times an integer within 2^53 is a double. *)
Lemma is_double_Z_scale (z j : Z) :
  Z.abs z ≤ 2 ^ 53 → -1074 ≤ j → is_double (Qc_of_Z z * pow2 j).
Proof.
  unfold is_double. change (2 ^ 53) with 9007199254740992.
  intros Hz Hj. destruct (decide (Z.abs z = 9007199254740992)) as [Hz'|].
  - assert (z = 9007199254740992 ∨ z = -9007199254740992) as [->| ->] by lia.
    + exists 4503599627370496, (1 + j). split; [|lia].
      by rewrite pow2_add, Qcmult_assoc, (Z2Qc_pow2 4503599627370496 1).
    + exists (-4503599627370496), (1 + j). split; [|lia].
      by rewrite pow2_add, Qcmult_assoc, (Z2Qc_pow2 (-4503599627370496) 1).
  - exists z, j. split; [done|lia].
Qed.

(** The model size is the inference estimate at fp32, counted in units
    of 2^20 bytes; the total is an integer that is not negative, with an
    estimate of at most 2^53 bytes. *)
Theorem modelSizeMB_is_fp32_estimate (modelLayers : list Layer) (t : Z) :
  totalParams modelLayers = Some (num t) →
  0 ≤ t → t * 4 ≤ 2 ^ 53 →
  ∃ size : Qc,
    modelSizeMB modelLayers = Some (Fin size) ∧
    memoryEstimate modelLayers "inference" "fp32"
    = Some (Fin (size * Qc_of_Z (2 ^ 20))).
Proof.
  intros Ht Ht0 Hbound. unfold modelSizeMB, memoryEstimate. rewrite Ht. simpl.
  destruct bytes_table as (H32 & _).
  unfold calculateMemory. simpl. rewrite H32. simpl.
  js_exact. change (1024 * 1024) with (2 ^ 20).
  exists (Qc_of_Z (t * 4) * pow2 (-20))%Qc. split.
  - f_equal. unfold div. rewrite !double_num by lia. unfold num.
    rewrite decide_False by (by vm_compute).
    unfold Qcdiv. rewrite <-(pow2_nonneg 20), pow2_inv by lia.
    apply round_double; [apply is_double_Z_scale; lia|].
    pose proof (in_range_Z (t * 4) ltac:(lia)) as [H1 H2].
    assert (0 ≤ Qc_of_Z (t * 4))%Qc as H0
      by (rewrite <-Z2Qc_inj_0, <-Z2Qc_inj_le; lia).
    pose proof (pow2_pos (-20)) as He.
    assert (pow2 (-20) ≤ 1)%Qc as He1 by (rewrite <-pow2_0; apply pow2_le; lia).
    unfold in_range.
    set (T := Qc_of_Z (t * 4)) in *. set (e := pow2 (-20)) in *.
    set (m := pow2 1024) in *. clearbody T e m.
    split; qc_to_q; nra.
  - do 2 f_equal. rewrite <-(pow2_nonneg 20), <-Qcmult_assoc, <-pow2_add by lia.
    change (-20 + 20) with 0. by rewrite pow2_0, Qcmult_1_r.
Qed.

Lemma modelSizeMB_is_fp32_estimate_witness :
  ∃ size : Qc,
    modelSizeMB three_layers = Some (Fin size) ∧
    memoryEstimate three_layers "inference" "fp32"
    = Some (Fin (size * Qc_of_Z (2 ^ 20))).
Proof.
  apply (modelSizeMB_is_fp32_estimate three_layers 2498816); [|lia|lia].
  closed_number.
Defined.
